(** * trivia.ju.io: the round engine of [trivia/game.py]

    A shallow embedding of [TriviaGame] and [AdminCommand] together with the
    part of the asyncio event loop they rely on: tasks created by
    [asyncio.async], callbacks queued by [call_soon_threadsafe], and
    [asyncio.sleep].

    Python floats (wall-clock readings and durations, in seconds) are
    modelled as exact rationals. *)

From Stdlib Require Import ZArith QArith Qround Lqa Lia List Bool.
From Stdlib Require Import Ascii String.
From stdpp Require Import base option list gmap strings.

Local Open Scope string_scope.
Local Open Scope Z_scope.

(** ** Rational comparisons as booleans *)

Definition Qltb (x y : Q) : bool := negb (Qle_bool y x).
Definition Qgtb (x y : Q) : bool := Qltb y x.

(** ** Class constants of [TriviaGame] *)

Inductive phase := STATE_IDLE | STATE_QUESTION | STATE_WAITING | STATE_LOCKED.

Definition phase_eqb (a b : phase) : bool :=
  match a, b with
  | STATE_IDLE, STATE_IDLE | STATE_QUESTION, STATE_QUESTION
  | STATE_WAITING, STATE_WAITING | STATE_LOCKED, STATE_LOCKED => true
  | _, _ => false
  end.

Definition ROUND_TIME : Q := 45.
Definition WAIT_TIME : Q := 10.
Definition WAIT_TIME_EXTRA : Q := 7.
Definition INACTIVITY_TIMEOUT : Q := ROUND_TIME * 4.
Definition STREAK_STEPS : Z := 5.
Definition HINT_TIMING : Q := 10.
Definition HINT_COOLDOWN : Q := 5 # 2.
Definition HINT_MAX : Z := 3.

(** ** Data *)

(** The [player] dict put on the chat queue. *)
Record player := Player {
  p_id : Z;
  p_name : string;
  p_permissions : Z;
}.

(** [self.streak] *)
Record streak := Streak {
  s_count : Z;
  s_player_name : option string;
  s_player_id : option Z;
}.

(** [self.hints] *)
Record hints := Hints {
  h_count : Z;
  h_current : option string;
  h_time : Q;
  h_cooldown : Q;
}.

(** What [game.py] reads of a [Question] entity. *)
Record question := Question {
  q_question : string;
  q_category_names : string;
  q_primary_answer : string;
}.

(** What [game.py] reads and writes of a [Round] entity, and what
    [solved_by] is handed. *)
Record round := Round {
  r_id : Z;
  r_question : question;
  r_start : Q;
  r_solved : bool;
  r_solver : option string;
  r_time_taken : option Q;
  r_points : option Z;
  r_hints : option Z;
  r_streak : option Z;
  r_ended : bool;
}.

(** The attributes of a [TriviaGame].  [round_start] is not assigned by
    [__init__]: it is [None] here until [delay_new_round] creates it.
    A task handle is the task's index in the loop's task table. *)
Record game := Game {
  state : phase;
  last_action : Q;
  timeout : option nat;
  timer_start : option Q;
  round_ : option round;
  player_count : Z;
  hints_ : hints;
  streak_ : streak;
  round_start : option Q;
}.

Definition set_state (s : phase) (g : game) : game :=
  Game s (last_action g) (timeout g) (timer_start g) (round_ g)
       (player_count g) (hints_ g) (streak_ g) (round_start g).
Definition set_last_action (t : Q) (g : game) : game :=
  Game (state g) t (timeout g) (timer_start g) (round_ g)
       (player_count g) (hints_ g) (streak_ g) (round_start g).
Definition set_timeout (h : option nat) (g : game) : game :=
  Game (state g) (last_action g) h (timer_start g) (round_ g)
       (player_count g) (hints_ g) (streak_ g) (round_start g).
Definition set_timer_start (t : option Q) (g : game) : game :=
  Game (state g) (last_action g) (timeout g) t (round_ g)
       (player_count g) (hints_ g) (streak_ g) (round_start g).
Definition set_round (r : option round) (g : game) : game :=
  Game (state g) (last_action g) (timeout g) (timer_start g) r
       (player_count g) (hints_ g) (streak_ g) (round_start g).
Definition set_player_count (n : Z) (g : game) : game :=
  Game (state g) (last_action g) (timeout g) (timer_start g) (round_ g)
       n (hints_ g) (streak_ g) (round_start g).
Definition set_hints (h : hints) (g : game) : game :=
  Game (state g) (last_action g) (timeout g) (timer_start g) (round_ g)
       (player_count g) h (streak_ g) (round_start g).
Definition set_streak (s : streak) (g : game) : game :=
  Game (state g) (last_action g) (timeout g) (timer_start g) (round_ g)
       (player_count g) (hints_ g) s (round_start g).
Definition set_round_start (t : option Q) (g : game) : game :=
  Game (state g) (last_action g) (timeout g) (timer_start g) (round_ g)
       (player_count g) (hints_ g) (streak_ g) t.

(** ** What is published and logged *)

(** The two parts of the dict [get_round_info] returns, before they are
    rendered to HTML. *)
Inductive game_view :=
| ViewQuestion (id : Z) (categories text : string) (hint : option string)
| ViewSolved (id : Z) (solver : string) (points : option Z) (time_taken : Q)
             (text answer : string)
| ViewTimesUp (id : Z) (text answer : string)
| ViewIdle
| ViewLocked.

Inductive timer_view :=
| TimerNone
| TimerQuestion (width time_left : Q)
| TimerWaiting (width time_left : Q).

Record round_info := RoundInfo {
  info_game : game_view;
  info_timer : timer_view;
}.

(** Arguments of [self.broadcast]. *)
Inductive message :=
| SetInfo (i : round_info)
| SysStopped (reason : string)
| SysNewRound (wait : Q)
| SysStreak (player_name : string) (count : Z) (can_skip : bool)
| SysStreakBroken (player_name : string) (holder : option string) (count : Z).

(** Records of the [logging] module. *)
Inductive log_entry :=
| LogExecuted (player_id : Z) (cmd : string) (args : list string)
| LogNoAccess (player_id : Z) (cmd : string)
| LogUnknown (player_id : Z) (cmd : string)
| LogHint (n : Z) (elapsed : Q) (current_max : Z).

Inductive exn := AttributeError | TypeError | KeyError | IndexError.

(** ** The event loop *)

(** The coroutines of [TriviaGame], each at a point where a task can be
    waiting: before its first step, or behind its [asyncio.sleep]. *)
Inductive coro :=
| round_solved_co (p : player)
| round_end_co
| start_new_round_co
| delay_new_round_co (new_round : bool)
| delay_new_round_slept
| round_timeout_co
| round_timeout_slept.

Inductive task_status :=
| Scheduled              (* its next step is in the ready queue *)
| Sleeping (until : Q)   (* suspended in [asyncio.sleep] *)
| Finished
| Failed (e : exn)
| Cancelled.

Record task := Task {
  t_coro : coro;
  t_status : task_status;
}.

Inductive callback :=
| Step (tid : nat)       (* [Task._step] *)
| Cancel (tid : nat).    (* [Task.cancel], bound when it was queued *)

Record world := World {
  w_game : game;
  w_now : Q;
  w_tasks : list task;
  w_ready : list callback;
  w_rounds : gmap Z round;
  w_next_round_id : Z;
  w_sent : list message;
  w_log : list log_entry;
  w_chat_alive : bool;
}.

(** ** A state monad with exceptions

    A Python exception leaves the assignments made before it in place, so
    a raising computation still returns the world it reached. *)

Inductive outcome (A : Type) :=
| Ret (a : A)
| Raise (e : exn).
Arguments Ret {A} a.
Arguments Raise {A} e.

Definition M (A : Type) : Type := world -> outcome A * world.

Definition ret {A} (a : A) : M A := fun w => (Ret a, w).
Definition raise {A} (e : exn) : M A := fun w => (Raise e, w).
Definition bind {A B} (m : M A) (k : A -> M B) : M B :=
  fun w => match m w with
           | (Ret a, w') => k a w'
           | (Raise e, w') => (Raise e, w')
           end.

Declare Scope py_scope.
Delimit Scope py_scope with py.
Notation "'let!' x ':=' m 'in' k" := (bind m (fun x => k))
  (at level 10, x name, m at level 100, k at level 200) : py_scope.
Notation "m '>>' k" := (bind m (fun _ => k))
  (at level 100, right associativity) : py_scope.
Local Open Scope py_scope.

Definition when (b : bool) (m : M unit) : M unit := if b then m else ret tt.

(** Reading and writing the game object and the loop. *)

Definition self : M game := fun w => (Ret (w_game w), w).

Definition with_game (f : game -> game) (w : world) : world :=
  World (f (w_game w)) (w_now w) (w_tasks w) (w_ready w) (w_rounds w)
        (w_next_round_id w) (w_sent w) (w_log w) (w_chat_alive w).

Definition update (f : game -> game) : M unit :=
  fun w => (Ret tt, with_game f w).

(** [time.time()] *)
Definition time : M Q := fun w => (Ret (w_now w), w).

(** [asyncio.async(self.broadcast(msg))]: the message is built when the
    call is made; its delivery is the transport's business. *)
Definition broadcast (m : message) : M unit :=
  fun w => (Ret tt,
    World (w_game w) (w_now w) (w_tasks w) (w_ready w) (w_rounds w)
          (w_next_round_id w) (w_sent w ++ [m]) (w_log w) (w_chat_alive w)).

Definition log (e : log_entry) : M unit :=
  fun w => (Ret tt,
    World (w_game w) (w_now w) (w_tasks w) (w_ready w) (w_rounds w)
          (w_next_round_id w) (w_sent w) (w_log w ++ [e]) (w_chat_alive w)).

(** [asyncio.async(coroutine)]: a new task whose first step is queued;
    the handle returned is its index. *)
Definition async (c : coro) : M nat :=
  fun w => let tid := length (w_tasks w) in
    (Ret tid,
     World (w_game w) (w_now w) (w_tasks w ++ [Task c Scheduled])
           (w_ready w ++ [Step tid]) (w_rounds w)
           (w_next_round_id w) (w_sent w) (w_log w) (w_chat_alive w)).

(** [asyncio.get_event_loop().call_soon_threadsafe(self.timeout.cancel)]:
    [self.timeout.cancel] is evaluated now, on [None] it raises. *)
Definition call_soon_cancel (h : option nat) : M unit :=
  match h with
  | None => raise AttributeError
  | Some tid => fun w => (Ret tt,
      World (w_game w) (w_now w) (w_tasks w) (w_ready w ++ [Cancel tid])
            (w_rounds w) (w_next_round_id w) (w_sent w) (w_log w)
            (w_chat_alive w))
  end.

Definition set_rounds (rs : gmap Z round) (n : Z) (w : world) : world :=
  World (w_game w) (w_now w) (w_tasks w) (w_ready w) rs n
        (w_sent w) (w_log w) (w_chat_alive w).

(** [Round[id]] *)
Definition Round_get (id : Z) : M round :=
  fun w => match w_rounds w !! id with
           | Some r => (Ret r, w)
           | None => (Raise KeyError, w)
           end.

(** Leaving [db_session] writes the entity back. *)
Definition Round_save (r : round) : M unit :=
  fun w => (Ret tt, set_rounds (<[r_id r := r]> (w_rounds w)) (w_next_round_id w) w).

(** ** The collaborators of [models.py] *)

Class Models := {
  (** [question.check_answer(text)] *)
  check_answer : question -> string -> bool;
  (** [question.get_hint(n)] *)
  question_hint : question -> Z -> string;
  (** [Player[player_id].has_perm(cmd)] *)
  has_perm : Z -> string -> bool;
  (** The question [Round.new(round_start)] draws; [None] is its
      [IndexError]. *)
  draw_question : Q -> gmap Z round -> option question;
  (** The points [solved_by] awards, from the round time, the time taken,
      the hints used and the streak. *)
  award_points : Q -> Q -> Z -> Z -> Z;
  (** Attributes an [AdminCommand] inherits from [object] (and its
      [__init__]), and whether calling one with the given arguments
      raises. *)
  object_attr : string -> bool;
  object_call : string -> list string -> option exn;
}.

(** Modelled from the spec: [Round.solved_by] of [models.py] is missing.
    The spec has it record the solve with time taken = now - round start,
    the hints used and the streak. *)
Definition solved_by `{Models} (now : Q) (r : round) (p : player)
    (round_time : Q) (hints : Z) (streak : Z) : round :=
  let taken := (now - r_start r)%Q in
  Round (r_id r) (r_question r) (r_start r) true (Some (p_name p))
        (Some taken) (Some (award_points round_time taken hints streak))
        (Some hints) (Some streak) (r_ended r).

(** Modelled from the spec: [Round.end_round] of [models.py] is missing;
    it closes the round. *)
Definition end_round (r : round) : round :=
  Round (r_id r) (r_question r) (r_start r) (r_solved r) (r_solver r)
        (r_time_taken r) (r_points r) (r_hints r) (r_streak r) true.

(** Modelled from the spec: [Round.new] of [models.py] is missing; a round
    record is created when a round starts, with a fresh id. *)
Definition Round_new `{Models} (rs : Q) : M round :=
  fun w => match draw_question rs (w_rounds w) with
           | None => (Raise IndexError, w)
           | Some q =>
             let r := Round (w_next_round_id w) q (w_now w) false None None
                            None None None false in
             (Ret r, set_rounds (<[r_id r := r]> (w_rounds w))
                                (w_next_round_id w + 1) w)
           end.

(** ** [TriviaGame] *)

Section Game.
Context `{Models}.

Definition _reset_streak : M unit :=
  update (set_streak (Streak 0 None None)).

Definition _reset_hints : M unit :=
  update (set_hints (Hints 0 None 0 0)).

(** [__init__], with the clock reading taken for [last_action]. *)
Definition init_game (now : Q) : game :=
  Game STATE_IDLE now None None None 0 (Hints 0 None 0 0)
       (Streak 0 None None) None.

(** [get_round_info]: a function of the game and the clock.  Reading an
    attribute of [None] raises [AttributeError]; subtracting [None] from a
    float, or formatting [None] with [.2f], raises [TypeError]. *)
Definition get_round_info (now : Q) (g : game) : outcome round_info :=
  let elapsed : outcome Q :=
    match round_ g with
    | Some _ => match timer_start g with
                | Some t0 => Ret (now - t0)%Q
                | None => Raise TypeError
                end
    | None => Ret 0%Q
    end in
  match elapsed with
  | Raise e => Raise e
  | Ret elapsed_time =>
    match state g with
    | STATE_QUESTION =>
      match round_ g with
      | None => Raise AttributeError
      | Some r =>
        Ret (RoundInfo
               (ViewQuestion (r_id r) (q_category_names (r_question r))
                             (q_question (r_question r))
                             (h_current (hints_ g)))
               (TimerQuestion
                  ((ROUND_TIME - elapsed_time) / ROUND_TIME * 100)%Q
                  (ROUND_TIME - elapsed_time)%Q))
      end
    | STATE_WAITING =>
      match round_ g with
      | None => Raise AttributeError
      | Some r =>
        let answer := q_primary_answer (r_question r) in
        let timer := TimerWaiting
                       ((WAIT_TIME - elapsed_time) / WAIT_TIME * 100)%Q
                       (WAIT_TIME - elapsed_time)%Q in
        if r_solved r then
          match r_solver r with
          | None => Raise AttributeError
          | Some name =>
            match r_time_taken r with
            | None => Raise TypeError
            | Some taken =>
              Ret (RoundInfo
                     (ViewSolved (r_id r) name (r_points r) taken
                                 (q_question (r_question r)) answer)
                     timer)
            end
          end
        else
          Ret (RoundInfo
                 (ViewTimesUp (r_id r) (q_question (r_question r)) answer)
                 timer)
      end
    | STATE_IDLE => Ret (RoundInfo ViewIdle TimerNone)
    | STATE_LOCKED => Ret (RoundInfo ViewLocked TimerNone)
    end
  end.

Definition broadcast_info : M unit :=
  let! g := self in
  let! now := time in
  match get_round_info now g with
  | Ret i => broadcast (SetInfo i)
  | Raise e => raise e
  end.

Definition has_streak (g : game) (p : player) : bool :=
  bool_decide (s_player_id (streak_ g) = Some (p_id p))
  && (STREAK_STEPS <=? s_count (streak_ g)).

Definition announce_streak (player_name : string) (broken : bool) : M unit :=
  let! g := self in
  let streak := s_count (streak_ g) in
  if broken then
    broadcast (SysStreakBroken player_name (s_player_name (streak_ g)) streak)
  else
    broadcast (SysStreak player_name streak (streak =? STREAK_STEPS)).

Definition get_hint : M unit :=
  let! g := self in
  if negb (phase_eqb (state g) STATE_QUESTION)
     || (HINT_MAX <=? h_count (hints_ g)) then ret tt
  else
    let! now := time in
    match timer_start g with
    | None => raise TypeError
    | Some t0 =>
      let elapsed_time := (now - t0)%Q in
      let current_max_hints := Qceiling (elapsed_time / HINT_TIMING) in
      if Qltb (now - h_time (hints_ g)) HINT_COOLDOWN then ret tt
      else if h_count (hints_ g) <? current_max_hints then
        log (LogHint (h_count (hints_ g) + 1) elapsed_time current_max_hints) >>
        update (fun g => set_hints
          (Hints (h_count (hints_ g)) (h_current (hints_ g)) now
                 (h_cooldown (hints_ g))) g) >>
        update (fun g => set_hints
          (Hints (h_count (hints_ g) + 1) (h_current (hints_ g))
                 (h_time (hints_ g)) (h_cooldown (hints_ g))) g) >>
        let! g := self in
        match round_ g with
        | None => raise AttributeError
        | Some r =>
          update (fun g => set_hints
            (Hints (h_count (hints_ g))
                   (Some (question_hint (r_question r) (h_count (hints_ g))))
                   (h_time (hints_ g)) (h_cooldown (hints_ g))) g) >>
          broadcast_info
        end
      else ret tt
    end.

Definition round_solved (p : player) : M unit :=
  update (set_state STATE_WAITING) >>
  let! g := self in
  (if bool_decide (s_player_id (streak_ g) = Some (p_id p)) then
     update (fun g => set_streak
       (Streak (s_count (streak_ g) + 1) (s_player_name (streak_ g))
               (s_player_id (streak_ g))) g) >>
     update (fun g => set_streak
       (Streak (s_count (streak_ g)) (Some (p_name p))
               (s_player_id (streak_ g))) g) >>
     let! g := self in
     when (s_count (streak_ g) mod STREAK_STEPS =? 0)
          (announce_streak (p_name p) false)
   else
     when (STREAK_STEPS <? s_count (streak_ g))
          (announce_streak (p_name p) true) >>
     update (set_streak (Streak 1 (Some (p_name p)) (Some (p_id p))))) >>
  let! g := self in
  match round_ g with
  | None => raise AttributeError
  | Some r =>
    let! played_round := Round_get (r_id r) in
    let! now := time in
    let played_round :=
      end_round (solved_by now played_round p ROUND_TIME
                           (h_count (hints_ g)) (s_count (streak_ g))) in
    update (set_round (Some played_round)) >>
    Round_save played_round >>
    let! _ := async round_end_co in
    ret tt
  end.

Definition next_round : M unit :=
  let! g := self in
  if phase_eqb (state g) STATE_WAITING && bool_decide (timeout g <> None) then
    call_soon_cancel (timeout g) >>
    let! _ := async start_new_round_co in
    ret tt
  else ret tt.

(** [reason or text]: [None] and the empty string count as false, and the
    text on the right is taken. *)
Definition or_else (reason : option string) (text : string) : string :=
  match reason with
  | Some (String _ _ as s) => s
  | _ => text
  end.

Definition stop_game (reason : option string) (lock : bool) : M unit :=
  let! g := self in
  when (bool_decide (timeout g <> None)) (call_soon_cancel (timeout g)) >>
  (if lock then update (set_state STATE_LOCKED)
   else update (set_state STATE_IDLE)) >>
  broadcast (SysStopped (or_else reason "Stopping due to inactivity!")) >>
  broadcast_info.

(** [delay_new_round], up to its [asyncio.sleep]: the result is the time
    to sleep. *)
Definition delay_new_round (new_round : bool) : M Q :=
  update (set_state STATE_WAITING) >>
  if new_round then
    let wait := (WAIT_TIME / 2)%Q in
    let! now := time in
    update (set_round_start (Some now)) >>
    _reset_streak >>
    broadcast (SysNewRound wait) >>
    ret wait
  else ret WAIT_TIME.

(** [delay_new_round], behind its [asyncio.sleep]. *)
Definition delay_new_round_wake : M unit :=
  let! g := self in
  let! now := time in
  if (player_count g <? 1)
     || Qltb INACTIVITY_TIMEOUT (now - last_action g) then
    stop_game None false
  else
    let! _ := async start_new_round_co in
    ret tt.

Definition start_new_round : M unit :=
  let! g := self in
  let! new_round :=
    match round_start g with
    | None => raise AttributeError
    | Some rs =>
      fun w => match Round_new rs w with
               | (Raise IndexError, w') =>
                 (let! now := time in
                  update (set_round_start (Some now)) >>
                  Round_new now) w'
               | res => res
               end
    end in
  update (set_round (Some new_round)) >>
  let! t := async round_timeout_co in
  update (set_timeout (Some t)) >>
  update (set_state STATE_QUESTION) >>
  let! now := time in
  update (set_timer_start (Some now)) >>
  _reset_hints >>
  broadcast_info.

(** [round_timeout], behind its [asyncio.sleep]. *)
Definition round_timeout_wake : M unit :=
  let! g := self in
  match round_ g with
  | None => raise AttributeError
  | Some r =>
    let! end_round_ := Round_get (r_id r) in
    let end_round_ := end_round end_round_ in
    update (set_round (Some end_round_)) >>
    Round_save end_round_ >>
    let! _ := async round_end_co in
    ret tt
  end.

Definition round_end : M unit :=
  update (set_state STATE_WAITING) >>
  let! now := time in
  update (set_timer_start (Some now)) >>
  broadcast_info >>
  let! t := async (delay_new_round_co false) in
  update (set_timeout (Some t)).

End Game.

(** ** The patterns of the chat commands

    Chat text is taken as ASCII; [re.I] folds the case of letters. *)

Definition lower (c : ascii) : ascii :=
  let n := nat_of_ascii c in
  if ((65 <=? n) && (n <=? 90))%nat then ascii_of_nat (n + 32) else c.

(** What [\s] matches and [str.split()] splits on. *)
Definition is_space (c : ascii) : bool :=
  let n := nat_of_ascii c in
  ((9 <=? n) && (n <=? 13) || (28 <=? n) && (n <=? 32))%nat.

(** [idrop prefix s]: [s] behind [prefix], when [s] starts with it up to
    case. *)
Fixpoint idrop (prefix s : string) : option string :=
  match prefix, s with
  | EmptyString, _ => Some s
  | String a prefix', String b s' =>
    if Ascii.eqb (lower a) (lower b) then idrop prefix' s' else None
  | String _ _, EmptyString => None
  end.

Definition RE_START (text : string) : bool := bool_decide (is_Some (idrop "!start" text)).
Definition RE_HINT (text : string) : bool := bool_decide (is_Some (idrop "!h" text)).
Definition RE_NEXT (text : string) : bool := bool_decide (is_Some (idrop "!n" text)).

(** The longest run of non-whitespace at the head of [s], and the rest. *)
Fixpoint span_word (s : string) : string * string :=
  match s with
  | EmptyString => (EmptyString, EmptyString)
  | String c s' =>
    if is_space c then (EmptyString, s)
    else let (w, rest) := span_word s' in (String c w, rest)
  end.

Definition newline : ascii := ascii_of_nat 10.

(** [.*?$]: no newline, but for one that ends the text. *)
Fixpoint to_line_end (s : string) : bool :=
  match s with
  | EmptyString => true
  | String c s' =>
    if Ascii.eqb c newline then bool_decide (s' = EmptyString)
    else to_line_end s'
  end.

(** [RE_ADMIN]: the two groups of [^!a(?:dmin)? (\S+) ?(.*?)$]. *)
Definition RE_ADMIN (text : string) : option (string * string) :=
  let groups (r : string) : option (string * string) :=
    match r with
    | String " " r' =>
      let (cmd, tl) := span_word r' in
      let tl := match tl with String " " t => t | _ => tl end in
      if bool_decide (cmd = EmptyString) then None
      else if to_line_end tl then Some (cmd, tl) else None
    | _ => None
    end in
  match idrop "!a" text with
  | None => None
  | Some rest =>
    match idrop "dmin" rest with
    | Some r => match groups r with
                | Some x => Some x
                | None => groups rest
                end
    | None => groups rest
    end
  end.

(** [str.split()], by the fuel of the string's length. *)
Fixpoint split_ws_aux (n : nat) (s : string) : list string :=
  match n with
  | O => []
  | S n' =>
    match s with
    | EmptyString => []
    | String c s' =>
      if is_space c then split_ws_aux n' s'
      else let (w, rest) := span_word s in
           w :: split_ws_aux n' (match rest with
                                 | String _ r => r
                                 | EmptyString => EmptyString
                                 end)
    end
  end.

Definition split_ws (s : string) : list string :=
  split_ws_aux (String.length s) s.

(** ** [AdminCommand] and the chat loop *)

Section Chat.
Context `{Models}.

(** [hasattr(self, cmd)] on an [AdminCommand]. *)
Definition admin_hasattr (cmd : string) : bool :=
  bool_decide (cmd ∈ ["game"; "player_id"; "run"; "next"; "stop"; "unlock";
                      "start"])
  || object_attr cmd.

Definition admin_next : M unit := next_round.

Definition admin_stop (args : list string) : M unit :=
  stop_game (Some "Stopped by administrator.") (bool_decide ("lock" ∈ args)).

Definition admin_unlock : M unit :=
  update (set_state STATE_IDLE) >>
  broadcast_info.

Definition admin_start : M unit :=
  let! t := async (delay_new_round_co true) in
  update (set_timeout (Some t)).

(** [getattr(self, cmd)(self, *args)].  [game] and [player_id] are not
    callable, and [run] is handed the object as its command name: all three
    raise [TypeError]. *)
Definition admin_getattr_call (cmd : string) (args : list string) : M unit :=
  if bool_decide (cmd = "next") then admin_next
  else if bool_decide (cmd = "stop") then admin_stop args
  else if bool_decide (cmd = "unlock") then admin_unlock
  else if bool_decide (cmd = "start") then admin_start
  else if bool_decide (cmd ∈ ["game"; "player_id"; "run"]) then
    raise TypeError
  else match object_call cmd args with
       | Some e => raise e
       | None => ret tt
       end.

(** [AdminCommand(game, player_id).run(cmd, *args)] *)
Definition admin_run (player_id : Z) (cmd : string) (args : list string)
  : M unit :=
  if admin_hasattr cmd then
    if has_perm player_id cmd then
      log (LogExecuted player_id cmd args) >>
      admin_getattr_call cmd args
    else log (LogNoAccess player_id cmd)
  else log (LogUnknown player_id cmd).

(** One turn of the [while True] of [run_chat], for the pair taken from
    the queue. *)
Definition run_chat (p : player) (text : string) : M unit :=
  let! now := time in
  update (set_last_action now) >>
  if bool_decide (is_Some (RE_ADMIN text)) && (0 <? p_permissions p) then
    match RE_ADMIN text with
    | Some (cmd, rest) => admin_run (p_id p) cmd (split_ws rest)
    | None => ret tt
    end
  else
    let! g := self in
    when (phase_eqb (state g) STATE_QUESTION)
      match round_ g with
      | None => raise AttributeError
      | Some r =>
        if check_answer (r_question r) text then
          call_soon_cancel (timeout g) >>
          let! _ := async (round_solved_co p) in
          ret tt
        else when (RE_HINT text) get_hint
      end >>
    let! g := self in
    when (phase_eqb (state g) STATE_WAITING)
      (when (RE_NEXT text && has_streak g p) next_round) >>
    let! g := self in
    when (phase_eqb (state g) STATE_IDLE)
      (when (RE_START text)
         (let! t := async (delay_new_round_co true) in
          update (set_timeout (Some t)))).

(** ** Running the loop *)

(** One step of a task: run its coroutine to the next suspension.  The
    result is [None] when the coroutine returned, or where it continues
    and how long it sleeps. *)
Definition coro_step (c : coro) : M (option (coro * Q)) :=
  match c with
  | round_solved_co p => round_solved p >> ret None
  | round_end_co => round_end >> ret None
  | start_new_round_co => start_new_round >> ret None
  | delay_new_round_co new_round =>
    let! wait := delay_new_round new_round in
    ret (Some (delay_new_round_slept, wait))
  | delay_new_round_slept => delay_new_round_wake >> ret None
  | round_timeout_co => ret (Some (round_timeout_slept, ROUND_TIME))
  | round_timeout_slept => round_timeout_wake >> ret None
  end.

Definition set_tasks (ts : list task) (w : world) : world :=
  World (w_game w) (w_now w) ts (w_ready w) (w_rounds w)
        (w_next_round_id w) (w_sent w) (w_log w) (w_chat_alive w).

Definition set_ready (cbs : list callback) (w : world) : world :=
  World (w_game w) (w_now w) (w_tasks w) cbs (w_rounds w)
        (w_next_round_id w) (w_sent w) (w_log w) (w_chat_alive w).

Definition set_task (tid : nat) (t : task) (w : world) : world :=
  set_tasks (<[tid := t]> (w_tasks w)) w.

(** A callback of the ready queue.  [Task.cancel] on a task that has not
    finished makes its next step raise [CancelledError] inside the
    coroutine, none of which catches it: the task ends there.  A step of a
    task that is no longer scheduled does nothing. *)
Definition run_callback (cb : callback) (w : world) : world :=
  match cb with
  | Cancel tid =>
    match w_tasks w !! tid with
    | Some (Task c Scheduled) | Some (Task c (Sleeping _)) =>
      set_task tid (Task c Cancelled) w
    | _ => w
    end
  | Step tid =>
    match w_tasks w !! tid with
    | Some (Task c Scheduled) =>
      match coro_step c w with
      | (Ret None, w') => set_task tid (Task c Finished) w'
      | (Ret (Some (c', d)), w') =>
        set_task tid (Task c' (Sleeping (w_now w' + d)%Q)) w'
      | (Raise e, w') => set_task tid (Task c (Failed e)) w'
      end
    | _ => w
    end
  end.

(** Run the ready queue, first in first out, until it is empty. *)
Fixpoint run_ready (fuel : nat) (w : world) : world :=
  match fuel with
  | O => w
  | S fuel' =>
    match w_ready w with
    | [] => w
    | cb :: rest => run_ready fuel' (run_callback cb (set_ready rest w))
    end
  end.

Definition quiescent (w : world) : Prop := w_ready w = [].

End Chat.

(** ** What reaches the game from outside *)

Inductive event :=
| Chat (t : Q) (p : player) (text : string)   (* [chat(player, text)] at [t] *)
| Tick (t : Q)                              (* the clock reaches [t] *)
| Players (n : Z).                          (* [player_count] is set *)

Section Events.
Context `{Models}.

Definition set_now (t : Q) (w : world) : world :=
  World (w_game w) (if Qle_bool (w_now w) t then t else w_now w) (w_tasks w)
        (w_ready w) (w_rounds w) (w_next_round_id w) (w_sent w) (w_log w)
        (w_chat_alive w).

Definition set_chat_alive (b : bool) (w : world) : world :=
  World (w_game w) (w_now w) (w_tasks w) (w_ready w) (w_rounds w)
        (w_next_round_id w) (w_sent w) (w_log w) b.

(** The sleeping tasks whose time has come, with their deadlines. *)
Fixpoint due_from (i : nat) (now : Q) (ts : list task) : list (Q * nat) :=
  match ts with
  | [] => []
  | Task _ (Sleeping d) :: ts' =>
    if Qle_bool d now then (d, i) :: due_from (S i) now ts'
    else due_from (S i) now ts'
  | _ :: ts' => due_from (S i) now ts'
  end.

Fixpoint insert_due (x : Q * nat) (l : list (Q * nat)) : list (Q * nat) :=
  match l with
  | [] => [x]
  | y :: l' => if Qltb (fst x) (fst y) then x :: l else y :: insert_due x l'
  end.

(** Earliest deadline first; equal deadlines in the order the tasks were
    created. *)
Definition due_order (l : list (Q * nat)) : list nat :=
  map snd (fold_left (fun acc x => insert_due x acc) l []).

Definition wake (w : world) (tid : nat) : world :=
  match w_tasks w !! tid with
  | Some (Task c (Sleeping _)) =>
    set_ready (w_ready w ++ [Step tid]) (set_task tid (Task c Scheduled) w)
  | _ => w
  end.

Definition wake_due (w : world) : world :=
  fold_left wake (due_order (due_from 0 (w_now w) (w_tasks w))) w.

(** Steps the ready queue is given for one event. *)
Definition fuel_for (w : world) : nat :=
  (8 * (1 + length (w_tasks w) + length (w_ready w)))%nat.

Definition handle (e : event) (w : world) : world :=
  match e with
  | Chat t p text =>
    let w := set_now t w in
    if w_chat_alive w then
      let w := match run_chat p text w with
               | (Ret _, w') => w'
               | (Raise _, w') => set_chat_alive false w'
               end in
      run_ready (fuel_for w) w
    else w
  | Tick t =>
    let w := wake_due (set_now t w) in
    run_ready (fuel_for w) w
  | Players n => with_game (set_player_count n) w
  end.

(** The game as [TriviaGame(broadcast)] and [run()] leave it at [t0]. *)
Definition init_world (t0 : Q) : world :=
  World (init_game t0) t0 [] [] ∅ 1 [] [] true.

Definition run_events (t0 : Q) (es : list event) : world :=
  fold_left (fun w e => handle e w) es (init_world t0).

Inductive reachable : world -> Prop :=
| reach_init t0 : reachable (init_world t0)
| reach_handle e w : reachable w -> reachable (handle e w).

(** The timers outstanding: the tasks asleep in [asyncio.sleep]. *)
Definition is_sleeping (t : task) : bool :=
  match t_status t with Sleeping _ => true | _ => false end.

Definition outstanding_timers (w : world) : nat :=
  length (filter (fun t => is_sleeping t = true) (w_tasks w)).

End Events.

(** ** A concrete set of collaborators, for running the game *)

Module Demo.

Definition the_question : question :=
  Question "Capital of France?" "Geography" "Paris".

#[export] Instance models : Models := {|
  check_answer _ text := bool_decide (text = "paris");
  question_hint _ n := if n =? 1 then "P____" else if n =? 2 then "Pa___" else "Par__";
  has_perm pid cmd := bool_decide (pid = 1);
  draw_question _ _ := Some the_question;
  award_points _ _ _ _ := 1;
  object_attr cmd := bool_decide (cmd = "__init__");
  object_call _ _ := Some TypeError;
|}.

Definition alice : player := Player 1 "alice" 1.
Definition bob : player := Player 2 "bob" 0.

End Demo.

(** ** What [round_solved] does to the streak, in closed form *)

Section Streak.
Context `{Models}.

(** The streak after [p] solves a round, from the streak before. *)
Definition streak_after (old : streak) (p : player) : streak :=
  if bool_decide (s_player_id old = Some (p_id p)) then
    Streak (s_count old + 1) (Some (p_name p)) (s_player_id old)
  else Streak 1 (Some (p_name p)) (Some (p_id p)).

(** The announcements [round_solved] publishes when [p] solves a round. *)
Definition streak_announcement (old : streak) (p : player) : list message :=
  if bool_decide (s_player_id old = Some (p_id p)) then
    if (s_count old + 1) mod STREAK_STEPS =? 0 then
      [SysStreak (p_name p) (s_count old + 1)
                 (s_count old + 1 =? STREAK_STEPS)]
    else []
  else
    if STREAK_STEPS <? s_count old then
      [SysStreakBroken (p_name p) (s_player_name old) (s_count old)]
    else [].

End Streak.

(** ** Predicates of the statements *)

(** The world with one more log record and nothing else changed. *)
Definition logged (e : log_entry) (w : world) : world :=
  World (w_game w) (w_now w) (w_tasks w) (w_ready w) (w_rounds w)
        (w_next_round_id w) (w_sent w) (w_log w ++ [e]) (w_chat_alive w).

(** [m] keeps the property [P] of the game, however it ends. *)
Definition keeps {A} (P : game -> Prop) (m : M A) : Prop :=
  forall w, P (w_game w) -> P (w_game (m w).2).

(** Once a round has been created, the game always holds one. *)
Definition has_round (g : game) : Prop := round_ g <> None.

(** The hint count stays between 0 and [HINT_MAX]. *)
Definition hints_bounded (g : game) : Prop :=
  0 <= h_count (hints_ g) <= HINT_MAX.

(** The rows of the round table sit under their own ids. *)
Definition rounds_keyed (w : world) : Prop :=
  forall k row, w_rounds w !! k = Some row -> r_id row = k.

(** ** The work left in the ready queue *)

(** How many callbacks a coroutine can still cause before everything it
    started sleeps or has ended. *)
Definition rank (c : coro) : nat :=
  match c with
  | round_solved_co _ => 3
  | round_end_co => 2
  | start_new_round_co => 2
  | delay_new_round_co _ => 1
  | delay_new_round_slept => 3
  | round_timeout_co => 1
  | round_timeout_slept => 3
  end.

Definition weight (ts : list task) (cb : callback) : nat :=
  match cb with
  | Cancel _ => 1
  | Step tid =>
    match ts !! tid with
    | Some (Task c Scheduled) => rank c
    | _ => 1
    end
  end.

Definition potential (ts : list task) (cbs : list callback) : nat :=
  sum_list (map (weight ts) cbs).

(** Every queued step is the step of a task of the table. *)
Definition in_range (ts : list task) (cb : callback) : Prop :=
  match cb with
  | Step tid => (tid < length ts)%nat
  | Cancel _ => True
  end.

Definition ready_wf (w : world) : Prop :=
  Forall (in_range (w_tasks w)) (w_ready w).

(** [w'] is [w] with tasks and callbacks added, the callbacks weighing at
    most [n]. *)
Definition adds (n : nat) (w w' : world) : Prop :=
  exists new_ts new_cbs,
    w_tasks w' = (w_tasks w ++ new_ts)%list /\
    w_ready w' = (w_ready w ++ new_cbs)%list /\
    (potential (w_tasks w ++ new_ts) new_cbs <= n)%nat /\
    Forall (in_range (w_tasks w ++ new_ts)) new_cbs.

(** ** Closed forms and consistency *)

(** What a chat message amounts to when it starts nothing: [last_action]
    is stamped with the clock. *)
Definition only_seen (w : world) : world :=
  with_game (set_last_action (w_now w)) w.

(** The round record [Round.new] creates. *)
Definition new_round_record (id : Z) (q : question) (now : Q) : round :=
  Round id q now false None None None None None false.

(** A solved round names its solver and the time taken. *)
Definition row_ok (r : round) : Prop :=
  r_solved r = true -> is_Some (r_solver r) /\ is_Some (r_time_taken r).

(** What holds of the game, the round table and the task table between
    any two steps. *)
Record sound (w : world) : Prop := Sound {
  sound_rows : forall k row, w_rounds w !! k = Some row ->
                 r_id row = k /\ k < w_next_round_id w /\ row_ok row;
  sound_round : forall r, round_ (w_game w) = Some r ->
                  w_rounds w !! r_id r = Some r;
  sound_question : state (w_game w) = STATE_QUESTION ->
                     is_Some (round_ (w_game w)) /\ is_Some (timeout (w_game w));
  sound_timer : is_Some (round_ (w_game w)) -> is_Some (timer_start (w_game w));
  sound_handle : forall tid, timeout (w_game w) = Some tid ->
                   (tid < length (w_tasks w))%nat;
}.

Definition keeps_w {A} (P : world -> Prop) (m : M A) : Prop :=
  forall w, P w -> P (m w).2.

(** The world [start_new_round] leaves when it has drawn [q], with
    [round_start] at [rs]. *)
Definition started (w : world) (rs : Q) (q : question) : world :=
  let g := w_game w in
  let now := w_now w in
  let r := new_round_record (w_next_round_id w) q now in
  World (Game STATE_QUESTION (last_action g) (Some (length (w_tasks w)))
              (Some now) (Some r) (player_count g) (Hints 0 None 0 0)
              (streak_ g) (Some rs))
        now (w_tasks w ++ [Task round_timeout_co Scheduled])
        (w_ready w ++ [Step (length (w_tasks w))])
        (<[w_next_round_id w := r]> (w_rounds w))
        (w_next_round_id w + 1)
        (w_sent w ++
         [SetInfo (RoundInfo
            (ViewQuestion (w_next_round_id w) (q_category_names q)
                          (q_question q) None)
            (TimerQuestion ((ROUND_TIME - (now - now)) / ROUND_TIME * 100)
                           (ROUND_TIME - (now - now))))])
        (w_log w) (w_chat_alive w).

(** ** The discipline of the timers *)

(** The coroutines that go to sleep: the two timers. *)
Definition timer_coro (c : coro) : bool :=
  match c with
  | delay_new_round_co _ | round_timeout_co => true
  | _ => false
  end.

(** A task that is a timer, or is about to become one. *)
Definition timerlike (t : task) : bool :=
  match t_status t with
  | Sleeping _ => true
  | Scheduled => timer_coro (t_coro t)
  | _ => false
  end.

(** A timer whose cancellation is not on its way. *)
Definition live_in (ts : list task) (rd : list callback) (i : nat) : Prop :=
  exists t, ts !! i = Some t /\ timerlike t = true /\ Cancel i ∉ rd.

Definition idle_phase (st : phase) : Prop :=
  st = STATE_IDLE \/ st = STATE_LOCKED.

(** The discipline of the timers: the one task on its way is in the ready
    queue; a live timer is the one [timeout] names; while a coroutine that
    will set a timer is on its way, and while the game idles, there is no
    live timer. *)
Record tidy_of (st : phase) (to : option nat) (ts : list task)
    (rd : list callback) : Prop := TidyOf {
  tidy_queued : forall i c, ts !! i = Some (Task c Scheduled) -> Step i ∈ rd;
  tidy_single : forall i j c c',
    ts !! i = Some (Task c Scheduled) ->
    ts !! j = Some (Task c' Scheduled) -> i = j;
  tidy_slept : forall i c d,
    ts !! i = Some (Task c (Sleeping d)) -> timer_coro c = false;
  tidy_handle : forall i, live_in ts rd i -> to = Some i;
  tidy_chain : forall i c,
    ts !! i = Some (Task c Scheduled) -> timer_coro c = false ->
    forall j, ~ live_in ts rd j;
  tidy_idle : idle_phase st -> forall i, live_in ts rd i ->
    ts !! i = Some (Task (delay_new_round_co true) Scheduled);
}.

Definition tidy (w : world) : Prop :=
  tidy_of (state (w_game w)) (timeout (w_game w)) (w_tasks w) (w_ready w).

(** An event that is no command of an administrator. *)
Definition plain (e : event) : Prop :=
  match e with
  | Chat _ p text => RE_ADMIN text = None \/ p_permissions p <= 0
  | _ => True
  end.

(** What a coroutine that is no timer does to the tasks, the ready queue,
    the timeout handle and the phase. *)
Inductive effect (w w' : world) : Prop :=
| eff_keep :
    w_tasks w' = w_tasks w -> w_ready w' = w_ready w ->
    timeout (w_game w') = timeout (w_game w) ->
    effect w w'
| eff_spawn c :
    timer_coro c = false ->
    w_tasks w' = (w_tasks w ++ [Task c Scheduled])%list ->
    w_ready w' = (w_ready w ++ [Step (length (w_tasks w))])%list ->
    timeout (w_game w') = timeout (w_game w) ->
    effect w w'
| eff_timer c :
    timer_coro c = true ->
    w_tasks w' = (w_tasks w ++ [Task c Scheduled])%list ->
    w_ready w' = (w_ready w ++ [Step (length (w_tasks w))])%list ->
    timeout (w_game w') = Some (length (w_tasks w)) ->
    ~ idle_phase (state (w_game w')) ->
    effect w w'
| eff_stop tid :
    w_tasks w' = w_tasks w ->
    timeout (w_game w) = Some tid ->
    w_ready w' = (w_ready w ++ [Cancel tid])%list ->
    timeout (w_game w') = timeout (w_game w) ->
    effect w w'.

(** What a chat message that is no command of an administrator does. *)
Inductive chat_effect (w w' : world) : Prop :=
| chat_keep :
    w_tasks w' = w_tasks w -> w_ready w' = w_ready w ->
    timeout (w_game w') = timeout (w_game w) ->
    state (w_game w') = state (w_game w) ->
    chat_effect w w'
| chat_swap c tid :
    timer_coro c = false ->
    timeout (w_game w) = Some tid ->
    w_tasks w' = (w_tasks w ++ [Task c Scheduled])%list ->
    w_ready w' = (w_ready w ++ [Cancel tid; Step (length (w_tasks w))])%list ->
    timeout (w_game w') = timeout (w_game w) ->
    state (w_game w') = state (w_game w) ->
    chat_effect w w'
| chat_start :
    idle_phase (state (w_game w)) ->
    w_tasks w' = (w_tasks w ++ [Task (delay_new_round_co true) Scheduled])%list ->
    w_ready w' = (w_ready w ++ [Step (length (w_tasks w))])%list ->
    timeout (w_game w') = Some (length (w_tasks w)) ->
    state (w_game w') = state (w_game w) ->
    chat_effect w w'.

(** ** Runs of the demo game *)

Module Runs.
Import Demo.

(** A game is started and its first question is asked at 5s. *)
Definition to_question : list event :=
  [Players 2; Chat 0 bob "!start"; Tick 5].

(** The game in the 5s before its first round. *)
Definition starting : world := run_events 0 [Players 2; Chat 0 bob "!start"].

(** The first question is out; its timer runs until 50s. *)
Definition asking : world := run_events 0 to_question.

(** An administrator unlocks while the question is out. *)
Definition unlocked : world :=
  run_events 0 (to_question ++ [Chat 16 alice "!a unlock"]).

(** An administrator starts the game while the question is out. *)
Definition restarted : world :=
  run_events 0 (to_question ++ [Chat 16 alice "!a start"]).

(** An administrator stops the game while the question is out. *)
Definition stopped : world :=
  run_events 0 (to_question ++ [Chat 16 alice "!a stop"]).

(** An administrator stops and locks the game while the question is out. *)
Definition locked : world :=
  run_events 0 (to_question ++ [Chat 16 alice "!a stop lock"]).

(** Bob answers at 15s, and the next question is asked at 25s. *)
Definition second_question : world :=
  run_events 0 (to_question ++ [Chat 15 bob "paris"; Tick 25]).

(** The clock reads 15s while the first question is out. *)
Definition asking_at_15 : world := set_now 15 asking.

(** The round record of the first question, as it was created. *)
Definition first_round : round :=
  Round 1 the_question 5 false None None None None None false.

(** Bob has answered the first question at 15s. *)
Definition answered : world :=
  run_events 0 (to_question ++ [Chat 15 bob "paris"]).

(** Everybody has left while the first question is out. *)
Definition deserted : world :=
  run_events 0 (to_question ++ [Players 0]).

(** After the restart at 16s, the second question is asked at 21s while
    the timer of the first one still runs. *)
Definition restarted_asking : world :=
  run_events 0 (to_question ++ [Chat 16 alice "!a start"; Tick 21]).

(** Two players are connected and nobody has started a game. *)
Definition lobby : world := run_events 0 [Players 2].

(** The game was started and everybody left before the first round. *)
Definition left_alone : world :=
  run_events 0 [Players 2; Chat 0 bob "!start"; Players 0].

(** Bob answers five questions in a row, each within a second. *)
Definition five_wins : list event :=
  to_question ++
  [Chat 6 bob "paris"; Tick 16; Chat 17 bob "paris"; Tick 27;
   Chat 28 bob "paris"; Tick 38; Chat 39 bob "paris"; Tick 49;
   Chat 50 bob "paris"].

Definition on_a_streak : world := run_events 0 five_wins.

End Runs.

(** * Properties *)

Lemma Qltb_lt (x y : Q) : Qltb x y = true <-> (x < y)%Q.
Proof.
  unfold Qltb. rewrite negb_true_iff. split.
  - intros Hb. apply Qnot_le_lt. intros Hle.
    apply Qle_bool_iff in Hle. congruence.
  - intros Hlt. destruct (Qle_bool y x) eqn:E; [|reflexivity].
    apply Qle_bool_iff in E. exfalso. exact (Qlt_not_le _ _ Hlt E).
Qed.

Lemma Qltb_ge (x y : Q) : Qltb x y = false <-> (y <= x)%Q.
Proof.
  unfold Qltb. rewrite negb_false_iff. apply Qle_bool_iff.
Qed.

Lemma phase_eqb_eq (a b : phase) : phase_eqb a b = true <-> a = b.
Proof. destruct a, b; simpl; split; congruence. Qed.

Lemma phase_eqb_neq (a b : phase) : phase_eqb a b = false <-> a <> b.
Proof. destruct a, b; simpl; split; congruence. Qed.

(** Unfolding the monad down to functions on worlds. *)
Create HintDb py discriminated.
#[local] Hint Unfold bind ret raise update self time broadcast log async
  call_soon_cancel when with_game Round_get Round_save Round_new set_rounds
  _reset_streak _reset_hints : py.

Ltac py_simpl := repeat (progress (autounfold with py in *; cbn in * )).

Ltac py_cases :=
  py_simpl;
  repeat (first [ case_bool_decide | case_match ];
          simplify_eq/=; py_simpl).

(** Boolean tests in the hypotheses, as propositions. *)
Ltac to_props :=
  repeat match goal with
  | H : (_ || _) = true |- _ => apply orb_true_iff in H; destruct H as [H|H]
  | H : (_ || _) = false |- _ => apply orb_false_iff in H; destruct H as [? H]
  | H : (_ && _) = true |- _ => apply andb_true_iff in H; destruct H as [? H]
  | H : negb _ = true |- _ => apply negb_true_iff in H
  | H : negb _ = false |- _ => apply negb_false_iff in H
  | H : (_ <=? _) = true |- _ => apply Z.leb_le in H
  | H : (_ <=? _) = false |- _ => apply Z.leb_gt in H
  | H : (_ <? _) = true |- _ => apply Z.ltb_lt in H
  | H : (_ <? _) = false |- _ => apply Z.ltb_ge in H
  | H : (_ =? _) = true |- _ => apply Z.eqb_eq in H
  | H : (_ =? _) = false |- _ => apply Z.eqb_neq in H
  | H : Qltb _ _ = true |- _ => apply Qltb_lt in H
  | H : Qltb _ _ = false |- _ => apply Qltb_ge in H
  | H : phase_eqb _ _ = true |- _ => apply phase_eqb_eq in H
  | H : phase_eqb _ _ = false |- _ => apply phase_eqb_neq in H
  end.

(** The game functions, unfolded down to the monad. *)
Ltac py_unfold :=
  unfold coro_step, run_chat, admin_run, admin_getattr_call, admin_next,
    admin_stop, admin_unlock, admin_start, round_solved, round_end,
    start_new_round, delay_new_round, delay_new_round_wake,
    round_timeout_wake, get_hint, next_round, stop_game, announce_streak,
    broadcast_info in *.

Ltac py_world w :=
  let g := fresh "g" in
  destruct w as [g ? ? ? ? ? ? ? ?]; destruct g as [? ? ? ? ? ? ? ? ?].

Section Properties.
Context `{Models}.

Lemma reachable_run_events t0 es : reachable (run_events t0 es).
Proof.
  unfold run_events. generalize (reach_init t0).
  generalize (init_world t0). induction es as [|e es IH]; intros w Hw.
  - exact Hw.
  - simpl. apply IH. constructor. exact Hw.
Qed.

(** ** Streak *)

(** C5: when [p] solves a round, a streak held by [p] grows by exactly one
    and is announced when the new count is a multiple of [STREAK_STEPS];
    a streak held by someone else is announced as broken exactly when it
    was longer than [STREAK_STEPS], and the streak becomes [p]'s with
    count 1.  Nothing else is published by [round_solved]. *)
Theorem round_solved_streak (p : player) (w : world) :
  let old := streak_ (w_game w) in
  let w' := (round_solved p w).2 in
  streak_ (w_game w') = streak_after old p /\
  w_sent w' = (w_sent w ++ streak_announcement old p)%list /\
  (s_player_id old = Some (p_id p) ->
     s_count (streak_ (w_game w')) = s_count old + 1 /\
     s_player_id (streak_ (w_game w')) = Some (p_id p) /\
     forall m, m ∈ streak_announcement old p <->
       (s_count old + 1) mod STREAK_STEPS = 0 /\
       m = SysStreak (p_name p) (s_count old + 1)
                     (s_count old + 1 =? STREAK_STEPS)) /\
  (s_player_id old <> Some (p_id p) ->
     streak_ (w_game w') = Streak 1 (Some (p_name p)) (Some (p_id p)) /\
     forall m, m ∈ streak_announcement old p <->
       STREAK_STEPS < s_count old /\
       m = SysStreakBroken (p_name p) (s_player_name old) (s_count old)).
Proof.
  intros old w'.
  assert (Hrun : streak_ (w_game w') = streak_after old p /\
                 w_sent w' = (w_sent w ++ streak_announcement old p)%list).
  { subst w' old.
    unfold round_solved, streak_announcement, streak_after, announce_streak.
    destruct w as [g now ts rd rs nid sent lg al].
    destruct g as [st la to tst r pc hs [c pn pi] rst].
    py_cases; rewrite ?app_nil_r; done. }
  destruct Hrun as [Hs Hm]. rewrite Hs.
  split; [reflexivity|]. split; [exact Hm|].
  unfold streak_after, streak_announcement. split; intros Hid.
  - rewrite !bool_decide_eq_true_2 by exact Hid. cbn.
    split; [reflexivity|]. split; [exact Hid|]. intros m.
    destruct (Z.eqb_spec ((s_count old + 1) mod STREAK_STEPS) 0) as [E|E].
    + rewrite list_elem_of_singleton. tauto.
    + split; [intros Hin; inversion Hin | tauto].
  - rewrite !bool_decide_eq_false_2 by exact Hid.
    split; [reflexivity|]. intros m.
    destruct (Z.ltb_spec STREAK_STEPS (s_count old)) as [E|E].
    + rewrite list_elem_of_singleton. tauto.
    + split; [intros Hin; inversion Hin | lia].
Qed.

(** ** Hints *)

(** C4: [get_hint] leaves the hint count or adds exactly one to it, even
    when the schedule owes more; the count does not pass [HINT_MAX]; a
    hint is released only in phase Question, below [HINT_MAX], when the
    schedule owes one and [HINT_COOLDOWN] has passed since the release
    before, and the release is stamped with the clock; outside phase
    Question [get_hint] changes nothing. *)
Theorem get_hint_release (w : world) :
  let g := w_game w in
  let g' := w_game (get_hint w).2 in
  let c := h_count (hints_ g) in
  let c' := h_count (hints_ g') in
  (c' = c \/ c' = c + 1) /\
  c' <= Z.max c HINT_MAX /\
  (c' = c + 1 ->
     state g = STATE_QUESTION /\
     c < HINT_MAX /\
     (HINT_COOLDOWN <= w_now w - h_time (hints_ g))%Q /\
     (exists t0, timer_start g = Some t0 /\
                 c < Qceiling ((w_now w - t0) / HINT_TIMING)) /\
     h_time (hints_ g') = w_now w) /\
  (state g <> STATE_QUESTION -> get_hint w = (Ret tt, w)).
Proof.
  intros g g' c c'. subst g' c' c g.
  unfold get_hint, broadcast_info.
  destruct w as [g now ts rd rs nid sent lg al].
  destruct g as [st la to tst r pc [c cur ht hc] sk rst].
  py_cases; to_props.
  all: unfold HINT_MAX in *.
  all: repeat split; try lia; try (left; reflexivity); try (right; reflexivity);
       try assumption; try congruence; try (intros; lia).
  all: eexists; split; [reflexivity | assumption].
Qed.

(** ** Admin commands *)

(** What [run] rejects: an admin command whose name is not an attribute of
    the handler, or for which the player has no permission, returns
    normally and changes nothing but the log, which gets one record. *)
Lemma admin_run_rejected (player_id : Z) (cmd : string)
    (args : list string) (w : world) :
  admin_hasattr cmd = false \/ has_perm player_id cmd = false ->
  exists e : log_entry,
    (e = LogUnknown player_id cmd \/ e = LogNoAccess player_id cmd) /\
    admin_run player_id cmd args w = (Ret tt, logged e w).
Proof.
  intros Hrej. unfold admin_run.
  destruct (admin_hasattr cmd) eqn:Eattr.
  - destruct Hrej as [Hrej|Hrej]; [discriminate|]. rewrite Hrej.
    exists (LogNoAccess player_id cmd). split; [right; reflexivity|].
    reflexivity.
  - exists (LogUnknown player_id cmd). split; [left; reflexivity|].
    reflexivity.
Qed.

(** C10: [unlock] sets the phase to Idle whatever the phase was, and
    changes nothing else of the game: the timer handle, the round, the
    hints and the streak stay, no task is touched and no cancellation is
    queued.  It publishes the round info, at most. *)
Theorem admin_unlock_frame (w : world) :
  let w' := (admin_unlock w).2 in
  w_game w' = set_state STATE_IDLE (w_game w) /\
  state (w_game w') = STATE_IDLE /\
  timeout (w_game w') = timeout (w_game w) /\
  round_ (w_game w') = round_ (w_game w) /\
  hints_ (w_game w') = hints_ (w_game w) /\
  streak_ (w_game w') = streak_ (w_game w) /\
  w_tasks w' = w_tasks w /\
  w_ready w' = w_ready w /\
  w_rounds w' = w_rounds w /\
  w_now w' = w_now w /\
  w_log w' = w_log w /\
  (w_sent w' = w_sent w \/
   w_sent w' = (w_sent w ++ [SetInfo (RoundInfo ViewIdle TimerNone)])%list).
Proof.
  unfold admin_unlock, broadcast_info, get_round_info.
  destruct w as [g now ts rd rs nid sent lg al].
  destruct g as [st la to tst r pc hs sk rst].
  py_cases; repeat split; auto.
Qed.

(** ** The streak between rounds *)


(** ** Recording a solve *)

(** C1: a correct answer in phase Question queues the cancellation of the
    round timer and then [round_solved]; and [round_solved] records the
    solve on the round: solved, with time taken = now - the round's start,
    the hints used and the streak count, in the round table and in the
    game, and the phase is Waiting. *)
Theorem round_solved_records (p : player) (text : string) (w : world)
    (r row : round) (tid : nat) :
  state (w_game w) = STATE_QUESTION ->
  round_ (w_game w) = Some r ->
  timeout (w_game w) = Some tid ->
  w_rounds w !! r_id r = Some row ->
  r_id row = r_id r ->
  RE_ADMIN text = None ->
  check_answer (r_question r) text = true ->
  (let w1 := (run_chat p text w).2 in
   (run_chat p text w).1 = Ret tt /\
   w_ready w1 = (w_ready w ++ [Cancel tid; Step (length (w_tasks w))])%list /\
   w_tasks w1 = (w_tasks w ++ [Task (round_solved_co p) Scheduled])%list /\
   state (w_game w1) = STATE_QUESTION) /\
  (let w2 := (round_solved p w).2 in
   exists r' : round,
     (round_solved p w).1 = Ret tt /\
     state (w_game w2) = STATE_WAITING /\
     round_ (w_game w2) = Some r' /\
     w_rounds w2 !! r_id r = Some r' /\
     r_id r' = r_id row /\
     r_solved r' = true /\
     r_solver r' = Some (p_name p) /\
     r_time_taken r' = Some (w_now w - r_start row)%Q /\
     r_hints r' = Some (h_count (hints_ (w_game w))) /\
     r_streak r' = Some (s_count (streak_ (w_game w2))) /\
     r_ended r' = true).
Proof.
  intros Hst Hr Hto Hrow Hid Hre Hans.
  destruct w as [g now ts rd rs nid sent lg al].
  destruct g as [st la to tst r0 pc hs sk rst].
  cbn in Hst, Hr, Hto, Hrow. subst st r0 to. split.
  - unfold run_chat. rewrite Hre. py_simpl. rewrite Hans. py_simpl.
    rewrite <- app_assoc. repeat split; reflexivity.
  - unfold round_solved, announce_streak.
    py_cases; eexists; repeat split; try reflexivity.
    all: rewrite Hid; apply lookup_insert_eq.
Qed.

(** ** Properties of the game kept by every event *)

Section Kept.
Variable P : game -> Prop.
Hypothesis coro_keeps : forall c, keeps P (coro_step c).
Hypothesis chat_keeps : forall p text, keeps P (run_chat p text).
Hypothesis players_keeps : forall n g, P g -> P (set_player_count n g).

Lemma run_callback_keeps cb w :
  P (w_game w) -> P (w_game (run_callback cb w)).
Proof.
  intros HP. destruct cb as [tid|tid]; cbn.
  - destruct (w_tasks w !! tid) as [[c []]|]; try exact HP.
    specialize (coro_keeps c w HP).
    destruct (coro_step c w) as [[[[c' d]|]|e] w']; exact coro_keeps.
  - destruct (w_tasks w !! tid) as [[c []]|]; exact HP.
Qed.

Lemma run_ready_keeps fuel w :
  P (w_game w) -> P (w_game (run_ready fuel w)).
Proof.
  revert w. induction fuel as [|fuel IH]; intros w HP; cbn; [exact HP|].
  destruct (w_ready w) as [|cb rest]; [exact HP|].
  apply IH. apply run_callback_keeps. exact HP.
Qed.

Lemma wake_game w tid : w_game (wake w tid) = w_game w.
Proof.
  unfold wake. destruct (w_tasks w !! tid) as [[c []]|]; reflexivity.
Qed.

Lemma wake_due_game w : w_game (wake_due w) = w_game w.
Proof.
  unfold wake_due. generalize (due_order (due_from 0 (w_now w) (w_tasks w))).
  intros l. revert w. induction l as [|tid l IH]; intros w; cbn.
  - reflexivity.
  - rewrite IH. apply wake_game.
Qed.

Lemma handle_keeps e w : P (w_game w) -> P (w_game (handle e w)).
Proof.
  intros HP. destruct e as [t p text|t|n]; unfold handle.
  - change (w_chat_alive (set_now t w)) with (w_chat_alive w).
    destruct (w_chat_alive w); [|exact HP].
    apply run_ready_keeps.
    specialize (chat_keeps p text (set_now t w) HP).
    destruct (run_chat p text (set_now t w)) as [[[]|e] w']; exact chat_keeps.
  - apply run_ready_keeps. rewrite wake_due_game. exact HP.
  - apply players_keeps. exact HP.
Qed.

Lemma reachable_keeps w :
  (forall t0, P (init_game t0)) -> reachable w -> P (w_game w).
Proof.
  intros Hinit Hw. induction Hw as [t0|e w Hw IH].
  - apply Hinit.
  - apply handle_keeps. exact IH.
Qed.

End Kept.

Lemma coro_step_has_round c : keeps has_round (coro_step c).
Proof.
  intros w. unfold has_round. py_world w. destruct c; py_unfold.
  all: py_cases; done.
Qed.

Lemma run_chat_has_round p text : keeps has_round (run_chat p text).
Proof.
  intros w. unfold has_round. py_world w. py_unfold.
  py_cases; done.
Qed.

Lemma coro_step_hints_bounded c : keeps hints_bounded (coro_step c).
Proof.
  intros w. unfold hints_bounded, HINT_MAX. py_world w. destruct c; py_unfold.
  all: py_cases; to_props; unfold HINT_MAX in *; lia.
Qed.

Lemma run_chat_hints_bounded p text : keeps hints_bounded (run_chat p text).
Proof.
  intros w. unfold hints_bounded. py_world w. py_unfold.
  py_cases; to_props; unfold HINT_MAX in *; lia.
Qed.

(** X11: in every reachable world the number of hints given in the round
    is between 0 and [HINT_MAX]. *)
Lemma reachable_hints_bounded w : reachable w -> hints_bounded (w_game w).
Proof.
  apply reachable_keeps.
  - apply coro_step_hints_bounded.
  - apply run_chat_hints_bounded.
  - intros n g Hg. exact Hg.
  - intros t0. unfold hints_bounded, HINT_MAX. cbn. lia.
Qed.

(** ** The round timer *)

(** C3, as the code has it: [round_timeout] checks neither the phase nor
    the round it was started for.  Behind its sleep it closes whichever
    round the game holds, in every phase, and schedules [round_end], which
    sets the phase to Waiting.  What keeps a stale timer from acting is
    its cancellation alone: a cancelled task is neither woken nor
    stepped, and cancelling a sleeping task leaves the game as it is. *)
Theorem round_timeout_unchecked (w : world) (r row : round) :
  round_ (w_game w) = Some r ->
  w_rounds w !! r_id r = Some row ->
  r_id row = r_id r ->
  let w' := (round_timeout_wake w).2 in
  ((round_timeout_wake w).1 = Ret tt /\
   round_ (w_game w') = Some (end_round row) /\
   w_rounds w' !! r_id r = Some (end_round row) /\
   state (w_game w') = state (w_game w) /\
   w_tasks w' = (w_tasks w ++ [Task round_end_co Scheduled])%list /\
   w_ready w' = (w_ready w ++ [Step (length (w_tasks w))])%list) /\
  (forall w0, state (w_game (round_end w0).2) = STATE_WAITING) /\
  (forall tid c,
     w_tasks w !! tid = Some (Task c Cancelled) ->
     run_callback (Step tid) w = w /\ wake w tid = w) /\
  (forall tid c d,
     w_tasks w !! tid = Some (Task c (Sleeping d)) ->
     w_tasks (run_callback (Cancel tid) w) !! tid = Some (Task c Cancelled) /\
     w_game (run_callback (Cancel tid) w) = w_game w).
Proof.
  intros Hr Hrow Hid w'. subst w'. repeat apply conj.
  - unfold round_timeout_wake. py_world w. cbn in Hr, Hrow. subst.
    py_simpl. rewrite Hrow. reflexivity.
  - unfold round_timeout_wake. py_world w. cbn in Hr, Hrow. subst.
    py_simpl. rewrite Hrow. reflexivity.
  - unfold round_timeout_wake. py_world w. cbn in Hr, Hrow. subst.
    py_simpl. rewrite Hrow. py_simpl. rewrite Hid. apply lookup_insert_eq.
  - unfold round_timeout_wake. py_world w. cbn in Hr, Hrow. subst.
    py_simpl. rewrite Hrow. reflexivity.
  - unfold round_timeout_wake. py_world w. cbn in Hr, Hrow. subst.
    py_simpl. rewrite Hrow. reflexivity.
  - unfold round_timeout_wake. py_world w. cbn in Hr, Hrow. subst.
    py_simpl. rewrite Hrow. reflexivity.
  - intros w0. unfold round_end, broadcast_info. py_world w0.
    py_cases; reflexivity.
  - intros tid c Htid. unfold wake. cbn. rewrite Htid. split; reflexivity.
  - intros tid c d Htid. cbn. rewrite Htid. cbn. split; [|reflexivity].
    apply list_lookup_insert_eq. eapply lookup_lt_Some. exact Htid.
Qed.

(** ** The round handle *)

(** C7, as the code has it: the round handle is null in the initial state
    and nothing ever clears it.  [stop_game], which enters Idle or
    Locked, and [unlock], which enters Idle, leave it as it is; and a
    game that holds a round still holds one after any event. *)
Theorem round_never_cleared :
  (forall t0, round_ (init_game t0) = None /\ state (init_game t0) = STATE_IDLE) /\
  (forall reason lock w,
     let w' := (stop_game reason lock w).2 in
     round_ (w_game w') = round_ (w_game w) /\
     state (w_game w') = (if lock then STATE_LOCKED else STATE_IDLE)) /\
  (forall w, round_ (w_game (admin_unlock w).2) = round_ (w_game w)) /\
  (forall e w, has_round (w_game w) -> has_round (w_game (handle e w))).
Proof.
  repeat apply conj.
  - intros t0. split; reflexivity.
  - intros reason lock w. unfold stop_game, broadcast_info. py_world w.
    py_cases; split; reflexivity.
  - intros w. unfold admin_unlock, broadcast_info. py_world w.
    py_cases; reflexivity.
  - intros e w. apply handle_keeps.
    + apply coro_step_has_round.
    + apply run_chat_has_round.
    + intros n g Hg. exact Hg.
Qed.

End Properties.

(** ** The demo game, run *)

Import Demo Runs.

Lemma round_solved_streak_witness :
  s_count (streak_ (w_game (round_solved bob second_question).2)) = 2 /\
  streak_ (w_game (round_solved alice second_question).2)
  = Streak 1 (Some "alice") (Some 1).
Proof.
  split.
  - pose proof (round_solved_streak bob second_question) as Hx.
    cbv zeta in Hx. destruct Hx as (_ & _ & Hsame & _).
    destruct Hsame as (Hc & _); [vm_compute; reflexivity|].
    rewrite Hc. vm_compute. reflexivity.
  - pose proof (round_solved_streak alice second_question) as Hx.
    cbv zeta in Hx. destruct Hx as (_ & _ & _ & Hother).
    destruct Hother as (Hs & _); [vm_compute; discriminate|].
    rewrite Hs. reflexivity.
Defined.

Lemma get_hint_release_witness :
  h_count (hints_ (w_game (get_hint asking_at_15).2)) = 1 /\
  (HINT_COOLDOWN <= 15 - 0)%Q.
Proof.
  pose proof (get_hint_release asking_at_15) as Hx.
  cbv zeta in Hx. destruct Hx as (_ & _ & Hrel & _).
  split; [vm_compute; reflexivity|].
  destruct Hrel as (_ & _ & Hcool & _); [vm_compute; reflexivity|].
  vm_compute in Hcool. vm_compute. exact Hcool.
Defined.

Lemma admin_run_rejected_witness :
  (exists e, admin_run 2 "stop" [] asking = (Ret tt, logged e asking)) /\
  (exists e, admin_run 1 "restart" [] asking = (Ret tt, logged e asking)).
Proof.
  split.
  - destruct (admin_run_rejected 2 "stop" [] asking) as (e & _ & He);
      [right; vm_compute; reflexivity|]. exists e. exact He.
  - destruct (admin_run_rejected 1 "restart" [] asking) as (e & _ & He);
      [left; vm_compute; reflexivity|]. exists e. exact He.
Defined.

(** C9: a name that is an attribute of the handler and no command is not
    rejected.  With access to it, [run] logs the command as executed and
    calls the attribute, which raises [TypeError]; [run_chat] catches
    nothing, so the error leaves the chat loop.  So it is for [game],
    [player_id] and [run]. *)
Theorem admin_run_attribute_raises :
  admin_run 1 "game" [] asking
  = (Raise TypeError, logged (LogExecuted 1 "game" []) asking) /\
  admin_run 1 "player_id" [] asking
  = (Raise TypeError, logged (LogExecuted 1 "player_id" []) asking) /\
  admin_run 1 "run" ["stop"] asking
  = (Raise TypeError, logged (LogExecuted 1 "run" ["stop"]) asking) /\
  (run_chat alice "!a game" asking).1 = Raise TypeError /\
  w_chat_alive (handle (Chat 16 alice "!a game") asking) = false.
Proof.
  repeat split; vm_compute; reflexivity.
Qed.

Lemma round_solved_records_witness :
  exists r',
    round_ (w_game (round_solved bob asking_at_15).2) = Some r' /\
    r_solved r' = true /\
    r_time_taken r' = Some 10%Q /\
    r_hints r' = Some 0 /\
    r_streak r' = Some 1.
Proof.
  pose proof (round_solved_records bob "paris" asking_at_15 first_round
                first_round 2) as Hx.
  cbv zeta in Hx.
  destruct Hx
    as [_ (r' & _ & _ & Hr & _ & _ & Hsol & _ & Ht & Hh & Hs & _)];
    try (vm_compute; reflexivity).
  exists r'. split; [exact Hr|]. split; [exact Hsol|].
  split; [|split].
  - rewrite Ht. vm_compute. reflexivity.
  - rewrite Hh. vm_compute. reflexivity.
  - rewrite Hs. vm_compute. reflexivity.
Defined.

Lemma round_timeout_unchecked_witness :
  state (w_game unlocked) = STATE_IDLE /\
  round_ (w_game (round_timeout_wake unlocked).2) = Some (end_round first_round).
Proof.
  split; [vm_compute; reflexivity|].
  pose proof (round_timeout_unchecked unlocked first_round first_round) as Hx.
  cbv zeta in Hx.
  destruct Hx as ((_ & Hr & _) & _); [vm_compute; reflexivity .. | exact Hr].
Defined.

Lemma round_never_cleared_witness :
  has_round (w_game (handle (Tick 50) asking)).
Proof.
  destruct round_never_cleared as (_ & _ & _ & Hkeep).
  apply Hkeep. vm_compute. discriminate.
Defined.

(** C2: the game at its first question has one timer, the round timer.
    An administrator's [start] then schedules the delay of a new game
    without cancelling it: two timers are outstanding, and nothing is left
    in the ready queue that could cancel one. *)
Theorem admin_start_second_timer :
  reachable asking /\
  state (w_game asking) = STATE_QUESTION /\
  outstanding_timers asking = 1%nat /\
  reachable restarted /\
  w_ready restarted = [] /\
  outstanding_timers restarted = 2%nat /\
  w_tasks restarted !! 2%nat
  = Some (Task round_timeout_slept (Sleeping 50)) /\
  w_tasks restarted !! 3%nat
  = Some (Task delay_new_round_slept (Sleeping (42 # 2))).
Proof.
  repeat apply conj; try apply reachable_run_events.
  all: vm_compute; reflexivity.
Qed.

(** C3 fails: after an [unlock] during the question the phase is Idle and
    the round timer still sleeps; when it fires it closes the round and
    moves the game to Waiting.  And the round timer that outlives an
    administrator's [start] fires during the second round and closes that
    one, 16s before its own timer is due. *)
Lemma stale_round_timeout_mutates :
  (reachable unlocked /\
   state (w_game unlocked) = STATE_IDLE /\
   w_tasks unlocked !! 2%nat = Some (Task round_timeout_slept (Sleeping 50)) /\
   r_ended <$> round_ (w_game unlocked) = Some false /\
   state (w_game (handle (Tick 50) unlocked)) = STATE_WAITING /\
   r_ended <$> round_ (w_game (handle (Tick 50) unlocked)) = Some true /\
   w_game (handle (Tick 50) unlocked) <> w_game unlocked) /\
  (reachable restarted_asking /\
   r_id <$> round_ (w_game restarted_asking) = Some 2 /\
   r_ended <$> round_ (w_game restarted_asking) = Some false /\
   w_tasks restarted_asking !! 2%nat
   = Some (Task round_timeout_slept (Sleeping 50)) /\
   w_tasks restarted_asking !! 5%nat
   = Some (Task round_timeout_slept (Sleeping 66)) /\
   r_id <$> round_ (w_game (handle (Tick 50) restarted_asking)) = Some 2 /\
   r_ended <$> round_ (w_game (handle (Tick 50) restarted_asking))
   = Some true /\
   state (w_game (handle (Tick 50) restarted_asking)) = STATE_WAITING).
Proof.
  repeat apply conj; try apply reachable_run_events.
  all: try (vm_compute; reflexivity).
  vm_compute. discriminate.
Qed.

(** C6: in the five seconds between the first [!start] and the first
    question the phase is Waiting and there is no round, and
    [get_round_info] raises instead of returning. *)
Theorem get_round_info_raises_before_first_round :
  reachable starting /\
  state (w_game starting) = STATE_WAITING /\
  round_ (w_game starting) = None /\
  (forall now, get_round_info now (w_game starting) = Raise AttributeError) /\
  (broadcast_info starting).1 = Raise AttributeError.
Proof.
  repeat apply conj; try apply reachable_run_events.
  all: vm_compute; reflexivity.
Qed.

(** C7 fails: a game stopped during a question is Idle, or Locked, and
    still holds the round. *)
Lemma stopped_game_holds_round :
  reachable stopped /\
  state (w_game stopped) = STATE_IDLE /\
  round_ (w_game stopped) <> None /\
  reachable locked /\
  state (w_game locked) = STATE_LOCKED /\
  round_ (w_game locked) <> None.
Proof.
  repeat apply conj; try apply reachable_run_events.
  all: try (vm_compute; reflexivity).
  all: vm_compute; discriminate.
Qed.


(** * The event loop runs dry *)

Section Loop.
Context `{Models}.

Lemma adds_none n w w' :
  w_tasks w' = w_tasks w -> w_ready w' = w_ready w -> adds n w w'.
Proof.
  intros Ht Hr. exists [], []. rewrite !app_nil_r.
  repeat split; [assumption..| cbn; lia | constructor].
Qed.

Lemma adds_cancel n w w' t :
  (1 <= n)%nat ->
  w_tasks w' = w_tasks w -> w_ready w' = (w_ready w ++ [Cancel t])%list ->
  adds n w w'.
Proof.
  intros Hn Ht Hr. exists [], [Cancel t]. rewrite !app_nil_r.
  repeat split; [assumption..| cbn; lia | repeat constructor].
Qed.

Lemma adds_spawn n w w' c :
  (rank c <= n)%nat ->
  w_tasks w' = (w_tasks w ++ [Task c Scheduled])%list ->
  w_ready w' = (w_ready w ++ [Step (length (w_tasks w))])%list ->
  adds n w w'.
Proof.
  intros Hn Ht Hr. exists [Task c Scheduled], [Step (length (w_tasks w))].
  repeat split; [assumption..| |].
  - cbn. rewrite list_lookup_middle by reflexivity. lia.
  - repeat constructor. cbn. rewrite length_app. cbn. lia.
Qed.

Lemma adds_cancel_spawn n w w' t c :
  (1 + rank c <= n)%nat ->
  w_tasks w' = (w_tasks w ++ [Task c Scheduled])%list ->
  w_ready w' = (w_ready w ++ [Cancel t; Step (length (w_tasks w))])%list ->
  adds n w w'.
Proof.
  intros Hn Ht Hr.
  exists [Task c Scheduled], [Cancel t; Step (length (w_tasks w))].
  repeat split; [assumption..| |].
  - cbn. rewrite list_lookup_middle by reflexivity. lia.
  - repeat constructor. cbn. rewrite length_app. cbn. lia.
Qed.

Ltac adds_solve :=
  first
  [ apply adds_none; reflexivity
  | eapply adds_cancel; [cbn; lia | reflexivity | reflexivity]
  | eapply adds_spawn; [ | reflexivity | reflexivity]; cbn; lia
  | eapply adds_cancel_spawn; [ | reflexivity | cbn; rewrite <- ?app_assoc; reflexivity]; cbn; lia ].

Lemma coro_step_adds c w : adds (rank c - 1) w (coro_step c w).2.
Proof.
  py_world w. destruct c; py_unfold.
  all: py_cases; adds_solve.
Qed.

Lemma run_chat_adds p text w : adds 4 w (run_chat p text w).2.
Proof.
  py_world w. py_unfold.
  py_cases; try (exfalso; to_props; congruence); adds_solve.
Qed.

Lemma rank_pos c : (1 <= rank c <= 3)%nat.
Proof. destruct c; cbn; lia. Qed.

Lemma weight_bounds ts cb : (1 <= weight ts cb <= 3)%nat.
Proof.
  destruct cb as [tid|tid]; cbn; [|lia].
  destruct (ts !! tid) as [[c []]|]; try lia. apply rank_pos.
Qed.

Lemma potential_cons ts cb cbs :
  potential ts (cb :: cbs) = (weight ts cb + potential ts cbs)%nat.
Proof. reflexivity. Qed.

Lemma potential_app ts cbs1 cbs2 :
  potential ts (cbs1 ++ cbs2) = (potential ts cbs1 + potential ts cbs2)%nat.
Proof.
  unfold potential. induction cbs1 as [|cb cbs1 IH]; cbn; [reflexivity|].
  rewrite IH. lia.
Qed.

Lemma potential_bounds ts cbs :
  (length cbs <= potential ts cbs <= 3 * length cbs)%nat.
Proof.
  induction cbs as [|cb cbs IH]; [cbn; lia|].
  rewrite potential_cons. cbn [length]. pose proof (weight_bounds ts cb). lia.
Qed.

Lemma weight_app ts new cb :
  in_range ts cb -> weight (ts ++ new) cb = weight ts cb.
Proof.
  destruct cb as [tid|tid]; cbn; [|reflexivity].
  intros Hlt. rewrite lookup_app_l by exact Hlt. reflexivity.
Qed.

Lemma potential_app_tasks ts new cbs :
  Forall (in_range ts) cbs -> potential (ts ++ new) cbs = potential ts cbs.
Proof.
  induction 1 as [|cb cbs Hcb _ IH]; [reflexivity|].
  rewrite !potential_cons, IH, weight_app by exact Hcb. reflexivity.
Qed.

Lemma weight_insert ts tid c st cb :
  st <> Scheduled ->
  (weight (<[tid := Task c st]> ts) cb <= weight ts cb)%nat.
Proof.
  intros Hst. destruct cb as [tid'|tid']; cbn; [|lia].
  destruct (decide (tid = tid')) as [->|Hne].
  - destruct (decide (tid' < length ts)%nat) as [Hlt|Hge].
    + rewrite list_lookup_insert_eq by exact Hlt.
      pose proof (weight_bounds ts (Step tid')) as Hw. cbn in Hw.
      destruct st; try contradiction; lia.
    + rewrite list_insert_ge by lia. lia.
  - rewrite list_lookup_insert_ne by exact Hne. lia.
Qed.

Lemma potential_insert ts tid c st cbs :
  st <> Scheduled ->
  (potential (<[tid := Task c st]> ts) cbs <= potential ts cbs)%nat.
Proof.
  intros Hst. induction cbs as [|cb cbs IH]; [cbn; lia|].
  rewrite !potential_cons. pose proof (weight_insert ts tid c st cb Hst). lia.
Qed.

Lemma in_range_insert ts tid t cb :
  in_range ts cb -> in_range (<[tid := t]> ts) cb.
Proof. destruct cb; cbn; [|trivial]. rewrite length_insert. trivial. Qed.

Lemma in_range_app ts new cb : in_range ts cb -> in_range (ts ++ new) cb.
Proof. destruct cb; cbn; [|trivial]. rewrite length_app. lia. Qed.

(** A step of a scheduled task: what is left of the queue, what the step
    added, and the task no longer scheduled. *)
Lemma step_potential ts rest c c2 tid st w0 w1 :
  w_tasks w0 = ts -> w_ready w0 = rest ->
  Forall (in_range ts) rest ->
  adds (rank c - 1) w0 w1 ->
  st <> Scheduled ->
  let w' := set_task tid (Task c2 st) w1 in
  ready_wf w' /\
  (potential (w_tasks w') (w_ready w') < rank c + potential ts rest)%nat.
Proof.
  intros Hts Hrd Hwf (new_ts & new_cbs & Ht & Hr & Hpot & Hin) Hst w'.
  subst w'. unfold ready_wf. cbn. rewrite Ht, Hr, Hts, Hrd. split.
  - apply Forall_app. split.
    + eapply Forall_impl; [exact Hwf|]. intros cb Hcb.
      apply in_range_insert, in_range_app, Hcb.
    + eapply Forall_impl; [rewrite Hts in Hin; exact Hin|]. intros cb Hcb.
      apply in_range_insert, Hcb.
  - pose proof (potential_insert (ts ++ new_ts) tid c2 st (rest ++ new_cbs) Hst)
      as Hle.
    rewrite (potential_app (ts ++ new_ts)) in Hle.
    rewrite (potential_app_tasks ts new_ts rest Hwf) in Hle.
    rewrite Hts in Hpot. pose proof (rank_pos c). unfold potential in *. lia.
Qed.

Lemma run_callback_potential cb rest w :
  w_ready w = cb :: rest ->
  ready_wf w ->
  let w' := run_callback cb (set_ready rest w) in
  ready_wf w' /\
  (potential (w_tasks w') (w_ready w')
   < potential (w_tasks w) (w_ready w))%nat.
Proof.
  intros Hrd Hwf w'. subst w'. unfold ready_wf in Hwf. rewrite Hrd in *.
  apply Forall_cons in Hwf as [Hcb Hrest]. rewrite potential_cons.
  pose proof (weight_bounds (w_tasks w) cb) as Hw.
  assert (Hsame : ready_wf (set_ready rest w) /\
            (potential (w_tasks (set_ready rest w)) (w_ready (set_ready rest w))
             < weight (w_tasks w) cb + potential (w_tasks w) rest)%nat).
  { split; [exact Hrest|].
    change (potential (w_tasks w) rest
            < weight (w_tasks w) cb + potential (w_tasks w) rest)%nat. lia. }
  assert (Hcancel : forall tid c,
            ready_wf (set_task tid (Task c Cancelled) (set_ready rest w)) /\
            (potential (w_tasks (set_task tid (Task c Cancelled) (set_ready rest w)))
                       (w_ready (set_task tid (Task c Cancelled) (set_ready rest w)))
             < weight (w_tasks w) cb + potential (w_tasks w) rest)%nat).
  { intros tid c. unfold ready_wf. cbn. split.
    - eapply Forall_impl; [exact Hrest|]. intros cb' Hcb'.
      apply in_range_insert, Hcb'.
    - pose proof (potential_insert (w_tasks w) tid c Cancelled rest) as Hle.
      unfold potential in *. specialize (Hle ltac:(discriminate)). lia. }
  destruct cb as [tid|tid]; cbn [run_callback].
  - change (w_tasks (set_ready rest w)) with (w_tasks w).
    destruct (w_tasks w !! tid) as [[c st]|] eqn:Etid; [|exact Hsame].
    destruct st; try exact Hsame.
    assert (Hwt : weight (w_tasks w) (Step tid) = rank c)
      by (cbn; rewrite Etid; reflexivity).
    rewrite Hwt.
    pose proof (coro_step_adds c (set_ready rest w)) as Hadds.
    destruct (coro_step c (set_ready rest w)) as [[[[c' d]|]|e] w1]; cbn in Hadds.
    + eapply (step_potential (w_tasks w) rest c _ tid); try eassumption;
        try reflexivity; discriminate.
    + eapply (step_potential (w_tasks w) rest c _ tid); try eassumption;
        try reflexivity; discriminate.
    + eapply (step_potential (w_tasks w) rest c _ tid); try eassumption;
        try reflexivity; discriminate.
  - change (w_tasks (set_ready rest w)) with (w_tasks w).
    destruct (w_tasks w !! tid) as [[c st]|]; [|exact Hsame].
    destruct st; try exact Hsame; apply Hcancel.
Qed.


Lemma run_ready_drains fuel w :
  ready_wf w ->
  (potential (w_tasks w) (w_ready w) <= fuel)%nat ->
  w_ready (run_ready fuel w) = [] /\ ready_wf (run_ready fuel w).
Proof.
  revert w. induction fuel as [|fuel IH]; intros w Hwf Hp.
  - cbn. pose proof (potential_bounds (w_tasks w) (w_ready w)) as Hb.
    destruct (w_ready w) as [|cb rest] eqn:E; [split; [reflexivity|exact Hwf]|].
    cbn [length] in Hb. lia.
  - cbn [run_ready]. destruct (w_ready w) as [|cb rest] eqn:E.
    + split; [exact E | exact Hwf].
    + destruct (run_callback_potential cb rest w E Hwf) as [Hwf' Hlt].
      rewrite E in Hlt. apply IH; [exact Hwf'|]. lia.
Qed.

Lemma fuel_for_enough w :
  (potential (w_tasks w) (w_ready w) <= fuel_for w)%nat.
Proof.
  pose proof (potential_bounds (w_tasks w) (w_ready w)). unfold fuel_for. lia.
Qed.

Lemma adds_ready_wf n w w' : adds n w w' -> ready_wf w -> ready_wf w'.
Proof.
  intros (new_ts & new_cbs & Ht & Hr & _ & Hin) Hwf. unfold ready_wf.
  rewrite Ht, Hr. apply Forall_app. split; [|exact Hin].
  eapply Forall_impl; [exact Hwf|]. intros cb. apply in_range_app.
Qed.

Lemma wake_ready_wf w tid : ready_wf w -> ready_wf (wake w tid).
Proof.
  intros Hwf. unfold wake.
  destruct (w_tasks w !! tid) as [[c st]|] eqn:E; [|exact Hwf].
  destruct st; try exact Hwf. unfold ready_wf. cbn.
  apply Forall_app. split.
  - eapply Forall_impl; [exact Hwf|]. intros cb. apply in_range_insert.
  - repeat constructor. cbn. rewrite length_insert.
    eapply lookup_lt_Some. exact E.
Qed.

Lemma wake_due_ready_wf w : ready_wf w -> ready_wf (wake_due w).
Proof.
  unfold wake_due. generalize (due_order (due_from 0 (w_now w) (w_tasks w))).
  intros l. revert w. induction l as [|tid l IH]; intros w Hwf; cbn.
  - exact Hwf.
  - apply IH, wake_ready_wf, Hwf.
Qed.

(** Every event is handled to the end: when the ready queue was empty
    before an event, it is empty again after it. *)
Lemma handle_quiescent e w : quiescent w -> quiescent (handle e w).
Proof.
  unfold quiescent. intros Hq.
  assert (Hwf : ready_wf w) by (unfold ready_wf; rewrite Hq; constructor).
  destruct e as [t p text|t|n]; unfold handle.
  - change (w_chat_alive (set_now t w)) with (w_chat_alive w).
    destruct (w_chat_alive w); [|exact Hq].
    pose proof (run_chat_adds p text (set_now t w)) as Hadds.
    apply adds_ready_wf in Hadds as Hwf'; [|exact Hwf].
    destruct (run_chat p text (set_now t w)) as [[[]|e] w'];
      apply run_ready_drains; try apply fuel_for_enough; exact Hwf'.
  - apply run_ready_drains; [|apply fuel_for_enough].
    apply wake_due_ready_wf. exact Hwf.
  - exact Hq.
Qed.

Lemma reachable_quiescent w : reachable w -> quiescent w.
Proof.
  induction 1 as [t0|e w Hw IH]; [reflexivity|].
  apply handle_quiescent. exact IH.
Qed.

End Loop.

(** * More of the game, function by function *)

Ltac py_open w :=
  destruct w as [[g_state g_last_action g_timeout g_timer_start g_round
                  g_player_count g_hints g_streak g_round_start]
                 now tasks ready rounds next_id sent logs alive].

Ltac py_proj :=
  cbn [w_game round_start w_rounds w_now with_game fst snd].

Ltac py_cbv :=
  cbv beta iota zeta delta
    [bind ret raise update self time broadcast log async call_soon_cancel
     when with_game Round_get Round_save set_rounds _reset_streak _reset_hints
     set_state set_last_action set_timeout set_timer_start set_round
     set_player_count set_hints set_streak set_round_start
     w_game w_now w_tasks w_ready
     w_rounds w_next_round_id w_sent
     w_log w_chat_alive
     state last_action timeout
     timer_start round_ player_count
     hints_ streak_ round_start
     h_count h_current h_time h_cooldown s_count s_player_name s_player_id
     r_id r_question r_start r_solved r_solver r_time_taken r_points r_hints
     r_streak r_ended q_question q_category_names q_primary_answer
     phase_eqb negb orb andb fst snd].

Section More.
Context `{Models}.

(** X2: every chat message stamps [last_action] with the clock, whatever the
    message then does, even when handling it raises. *)
Theorem run_chat_last_action p text w :
  last_action (w_game (run_chat p text w).2) = w_now w.
Proof.
  py_open w. py_unfold. py_cases; reflexivity.
Qed.

(** X3: in phase Locked a message that is not an admin command of a player
    with permissions does nothing but stamp [last_action]. *)
Theorem run_chat_locked p text w :
  state (w_game w) = STATE_LOCKED ->
  RE_ADMIN text = None \/ p_permissions p <= 0 ->
  run_chat p text w = (Ret tt, only_seen w).
Proof.
  intros Hst Hadm. py_open w. cbn in Hst. subst. unfold only_seen. py_unfold.
  destruct Hadm as [Hadm|Hadm].
  - rewrite Hadm. py_simpl. reflexivity.
  - replace (0 <? p_permissions p) with false by (symmetry; apply Z.ltb_ge; lia).
    rewrite andb_false_r. py_simpl. reflexivity.
Qed.

(** X4: in phase Idle such a message starts a game if it begins with
    [!start], and does nothing else otherwise. *)
Theorem run_chat_idle p text w :
  state (w_game w) = STATE_IDLE ->
  RE_ADMIN text = None \/ p_permissions p <= 0 ->
  run_chat p text w =
  (Ret tt,
   if RE_START text then
     with_game (set_timeout (Some (length (w_tasks w))))
       (async (delay_new_round_co true) (only_seen w)).2
   else only_seen w).
Proof.
  intros Hst Hadm. py_open w. cbn in Hst. subst. unfold only_seen. py_unfold.
  destruct Hadm as [Hadm|Hadm].
  - rewrite Hadm. py_simpl. destruct (RE_START text); reflexivity.
  - replace (0 <? p_permissions p) with false by (symmetry; apply Z.ltb_ge; lia).
    rewrite andb_false_r. py_simpl. destruct (RE_START text); reflexivity.
Qed.

(** X5: in phase Waiting such a message skips to the next round only if it
    begins with [!n] and its sender holds a streak of at least
    [STREAK_STEPS]: then the pending timer's cancellation is queued ahead of
    the new [start_new_round] task.  Any other message does nothing. *)
Theorem run_chat_waiting p text w :
  state (w_game w) = STATE_WAITING ->
  RE_ADMIN text = None \/ p_permissions p <= 0 ->
  run_chat p text w =
  (Ret tt,
   match timeout (w_game w) with
   | Some tid =>
     if RE_NEXT text && has_streak (w_game w) p then
       (async start_new_round_co
          (set_ready (w_ready w ++ [Cancel tid]) (only_seen w))).2
     else only_seen w
   | None => only_seen w
   end).
Proof.
  intros Hst Hadm. py_open w. cbn in Hst. subst. unfold only_seen. py_unfold.
  unfold has_streak.
  destruct Hadm as [Hadm|Hadm].
  - rewrite Hadm. py_simpl.
    destruct (RE_NEXT text); cbn; [|destruct g_timeout; reflexivity].
    destruct g_timeout; py_cases; reflexivity.
  - replace (0 <? p_permissions p) with false by (symmetry; apply Z.ltb_ge; lia).
    rewrite andb_false_r. py_simpl.
    destruct (RE_NEXT text); cbn; [|destruct g_timeout; reflexivity].
    destruct g_timeout; py_cases; reflexivity.
Qed.

(** X6: [delay_new_round], behind its sleep: with no player connected, or
    more than [INACTIVITY_TIMEOUT] since the last chat message, the game
    stops to Idle (never Locked), says so, and starts no round; otherwise
    it starts the next round and touches nothing else. *)
Theorem delay_new_round_wake_cases w :
  let g := w_game w in
  let w' := (delay_new_round_wake w).2 in
  (player_count g < 1 \/ (INACTIVITY_TIMEOUT < w_now w - last_action g)%Q ->
     state (w_game w') = STATE_IDLE /\
     w_tasks w' = w_tasks w /\
     SysStopped "Stopping due to inactivity!" ∈ w_sent w' /\
     w_ready w' = match timeout g with
                  | Some tid => (w_ready w ++ [Cancel tid])%list
                  | None => w_ready w
                  end) /\
  (1 <= player_count g -> (w_now w - last_action g <= INACTIVITY_TIMEOUT)%Q ->
     delay_new_round_wake w = (Ret tt, (async start_new_round_co w).2)).
Proof.
  intros g w'. subst g w'. py_open w. py_unfold. split.
  - intros Hin.
    assert (Hc : (g_player_count <? 1) || Qltb INACTIVITY_TIMEOUT (now - g_last_action) = true).
    { apply orb_true_iff. destruct Hin as [Hin|Hin]; [left; apply Z.ltb_lt; exact Hin|].
      right. apply Qltb_lt. exact Hin. }
    cbn in Hc. py_simpl. rewrite Hc.
    py_cases; repeat split; try reflexivity.
    all: rewrite !elem_of_app, !elem_of_cons; auto 6.
  - intros Hp Ht.
    assert (Hc : (g_player_count <? 1) || Qltb INACTIVITY_TIMEOUT (now - g_last_action) = false).
    { apply orb_false_iff. split; [apply Z.ltb_ge; cbn in Hp; lia|].
      apply Qltb_ge. exact Ht. }
    cbn in Hc. py_simpl. rewrite Hc. reflexivity.
Qed.

(** X7: [stop_game] in closed form, for a game whose timer start is set
    whenever it holds a round.  The text published is the reason given,
    and the inactivity text when no reason is given or the reason is the
    empty string. *)
Theorem stop_game_spec reason lock w :
  round_ (w_game w) = None \/ is_Some (timer_start (w_game w)) ->
  let text := match reason with
              | Some (String a s) => String a s
              | Some EmptyString | None => "Stopping due to inactivity!"
              end in
  stop_game reason lock w =
  (Ret tt,
   World (set_state (if lock then STATE_LOCKED else STATE_IDLE) (w_game w))
         (w_now w) (w_tasks w)
         (match timeout (w_game w) with
          | Some tid => w_ready w ++ [Cancel tid]
          | None => w_ready w
          end)
         (w_rounds w) (w_next_round_id w)
         (w_sent w ++
          [SysStopped text;
           SetInfo (RoundInfo (if lock then ViewLocked else ViewIdle)
                              TimerNone)])
         (w_log w) (w_chat_alive w)).
Proof.
  intros Hr text. subst text. py_open w. py_unfold. unfold get_round_info.
  destruct Hr as [Hr|[t0 Hr]]; cbn in Hr; subst.
  all: destruct reason as [[|a s]|]; cbn [or_else].
  all: destruct lock; py_cases; rewrite <- ?app_assoc; reflexivity.
Qed.

(** [start_new_round] in closed form: without [round_start] it raises
    before anything is done; it draws a question for [round_start], and
    when that fails, once more for a [round_start] refreshed to now; when
    that fails too, [IndexError] leaves the coroutine and nothing has
    changed but [round_start]: no round, no timer, the phase as it was. *)
Lemma start_new_round_closed w :
  start_new_round w =
  match round_start (w_game w) with
  | None => (Raise AttributeError, w)
  | Some rs =>
    match draw_question rs (w_rounds w) with
    | Some q => (Ret tt, started w rs q)
    | None =>
      match draw_question (w_now w) (w_rounds w) with
      | Some q => (Ret tt, started w (w_now w) q)
      | None => (Raise IndexError,
                 with_game (set_round_start (Some (w_now w))) w)
      end
    end
  end.
Proof.
  py_open w. cbv zeta. unfold start_new_round.
  unfold bind at 1. unfold self.
  py_proj.
  destruct g_round_start as [rs|]; [|reflexivity].
  unfold bind at 1. unfold Round_new at 1.
  py_proj.
  destruct (draw_question rs rounds) as [q|] eqn:Hd1.
  { unfold broadcast_info, get_round_info, started, new_round_record.
    py_cbv. reflexivity. }
  unfold bind at 1. unfold time at 1. py_proj.
  unfold bind at 1. unfold update at 1. cbn [fst snd].
  unfold Round_new at 1. py_proj.
  destruct (draw_question now rounds) as [q|] eqn:Hd2.
  { unfold broadcast_info, get_round_info, started, new_round_record.
    py_cbv. reflexivity. }
  reflexivity.
Qed.

(** X9: the timer of the question view: during the round the time left runs
    from [ROUND_TIME] down to 0 and the bar from 100 to 0; the code does
    not clamp it, so it is negative once the round time is over. *)
Theorem question_timer now g r t0 :
  state g = STATE_QUESTION ->
  round_ g = Some r ->
  timer_start g = Some t0 ->
  exists width left,
    get_round_info now g
    = Ret (RoundInfo (ViewQuestion (r_id r) (q_category_names (r_question r))
                                   (q_question (r_question r))
                                   (h_current (hints_ g)))
                     (TimerQuestion width left)) /\
    (left == ROUND_TIME - (now - t0))%Q /\
    (width == left / ROUND_TIME * 100)%Q /\
    ((t0 <= now <= t0 + ROUND_TIME)%Q ->
       (0 <= left <= ROUND_TIME)%Q /\ (0 <= width <= 100)%Q) /\
    ((t0 + ROUND_TIME < now)%Q -> (left < 0)%Q /\ (width < 0)%Q).
Proof.
  intros Hst Hr Ht. destruct g. cbn in Hst, Hr, Ht. subst.
  eexists _, _. split; [reflexivity|]. unfold ROUND_TIME.
  split; [reflexivity|]. split; [reflexivity|].
  split; intros Hb.
  - split; [lra|].
    assert (E : ((45 - (now - t0)) / 45 * 100 == (45 - (now - t0)) * (100 # 45))%Q)
      by (field).
    rewrite E. lra.
  - split; [lra|].
    assert (E : ((45 - (now - t0)) / 45 * 100 == (45 - (now - t0)) * (100 # 45))%Q)
      by (field).
    rewrite E. lra.
Qed.

(** The first two characters of a text that [idrop] accepts. *)
Lemma idrop_two a b prefix text rest :
  idrop (String a (String b prefix)) text = Some rest ->
  exists c1 c2 text', text = String c1 (String c2 text') /\
                      lower c1 = lower a /\ lower c2 = lower b.
Proof.
  destruct text as [|c1 [|c2 text']]; cbn [idrop]; intros Hd.
  - discriminate.
  - destruct (Ascii.eqb_spec (lower a) (lower c1)); discriminate.
  - destruct (Ascii.eqb_spec (lower a) (lower c1)) as [E1|]; [|discriminate].
    destruct (Ascii.eqb_spec (lower b) (lower c2)) as [E2|]; [|discriminate].
    eauto 10.
Qed.

(** X10: a message that matches the admin pattern matches none of the chat
    commands. *)
Theorem RE_ADMIN_exclusive text :
  is_Some (RE_ADMIN text) ->
  RE_START text = false /\ RE_HINT text = false /\ RE_NEXT text = false.
Proof.
  intros [x Hx]. unfold RE_ADMIN in Hx.
  destruct (idrop "!a" text) as [rest|] eqn:Ea; [|discriminate]. clear Hx.
  apply idrop_two in Ea as (c1 & c2 & text' & -> & E1 & E2).
  unfold RE_START, RE_HINT, RE_NEXT.
  repeat split; apply bool_decide_eq_false_2; intros [y Hy];
    apply idrop_two in Hy as (d1 & d2 & text2 & [= <- <- <-] & _ & F2);
    rewrite E2 in F2; vm_compute in F2; discriminate.
Qed.

End More.

Section Inv.
Context `{Models}.

Lemma keeps_w_bind {A B} P (m : M A) (k : A -> M B) :
  keeps_w P m -> (forall a, keeps_w P (k a)) -> keeps_w P (bind m k).
Proof.
  intros Hm Hk w HP. unfold bind. specialize (Hm w HP).
  destruct (m w) as [[a|e] w']; cbn in *; [apply Hk; exact Hm | exact Hm].
Qed.

Lemma keeps_w_ret {A} P (a : A) : keeps_w P (ret a).
Proof. intros w HP. exact HP. Qed.

Lemma keeps_w_raise {A} P e : keeps_w P (@raise A e).
Proof. intros w HP. exact HP. Qed.

Lemma keeps_w_when P b m : keeps_w P m -> keeps_w P (when b m).
Proof. intros Hm. destruct b; [exact Hm | apply keeps_w_ret]. Qed.

(** Publishing and logging change nothing [sound] looks at. *)
Lemma sound_frame w w' :
  w_game w' = w_game w -> w_rounds w' = w_rounds w ->
  w_next_round_id w' = w_next_round_id w ->
  (length (w_tasks w) <= length (w_tasks w'))%nat ->
  sound w -> sound w'.
Proof.
  intros Hg Hr Hn Hl [S1 S2 S3 S4 S5].
  split; rewrite ?Hg, ?Hr, ?Hn; auto.
  intros tid Ht. specialize (S5 tid Ht). lia.
Qed.

Lemma broadcast_sound m : keeps_w sound (broadcast m).
Proof. intros w. apply sound_frame; reflexivity. Qed.

Lemma log_sound e : keeps_w sound (log e).
Proof. intros w. apply sound_frame; reflexivity. Qed.

Lemma async_sound c : keeps_w sound (async c).
Proof.
  intros w. apply sound_frame; try reflexivity. cbn. rewrite length_app. lia.
Qed.

Lemma cancel_sound h : keeps_w sound (call_soon_cancel h).
Proof.
  destruct h; [|apply keeps_w_raise]. intros w. apply sound_frame; reflexivity.
Qed.

Lemma broadcast_info_sound : keeps_w sound broadcast_info.
Proof.
  intros w Hw. unfold broadcast_info. py_simpl.
  destruct (get_round_info _ _); [apply broadcast_sound|]; exact Hw.
Qed.

(** An assignment to the game that leaves the phase, the round, the timer
    start and the handle alone. *)
Lemma update_sound f :
  (forall g, state (f g) = state g /\ round_ (f g) = round_ g /\
             timer_start (f g) = timer_start g /\ timeout (f g) = timeout g) ->
  keeps_w sound (update f).
Proof.
  intros Hf w [S1 S2 S3 S4 S5]. destruct (Hf (w_game w)) as (E1 & E2 & E3 & E4).
  split; cbn; rewrite ?E1, ?E2, ?E3, ?E4; auto.
Qed.

(** Leaving phase Question, or entering another phase than Question. *)
Lemma set_state_sound s :
  s <> STATE_QUESTION -> keeps_w sound (update (set_state s)).
Proof.
  intros Hs w [S1 S2 S3 S4 S5]. split; cbn; auto. intros Hq. contradiction.
Qed.

Lemma get_hint_sound : keeps_w sound get_hint.
Proof.
  intros w Hw. unfold get_hint.
  apply keeps_w_bind; [intros ? ?; assumption| |exact Hw]. intros g.
  destruct (_ || _); [apply keeps_w_ret|].
  apply keeps_w_bind; [intros ? ?; assumption|]. intros now.
  destruct (timer_start g); [|apply keeps_w_raise].
  destruct (Qltb _ _); [apply keeps_w_ret|].
  destruct (_ <? _); [|apply keeps_w_ret].
  repeat (apply keeps_w_bind; [|intros ?]);
    try apply log_sound; try (apply update_sound; intros []; cbn; auto);
    try (intros ? ?; assumption).
  destruct (round_ _); [|apply keeps_w_raise].
  apply keeps_w_bind; [|intros ?; apply broadcast_info_sound].
  apply update_sound; intros []; cbn; auto.
Qed.


(** [round_solved] in closed form. *)
Lemma round_solved_spec p w :
  let g := w_game w in
  let g1 := set_streak (streak_after (streak_ g) p) (set_state STATE_WAITING g) in
  let sent := (w_sent w ++ streak_announcement (streak_ g) p)%list in
  round_solved p w =
  match round_ g with
  | None =>
    (Raise AttributeError,
     World g1 (w_now w) (w_tasks w) (w_ready w) (w_rounds w)
           (w_next_round_id w) sent (w_log w) (w_chat_alive w))
  | Some r =>
    match w_rounds w !! r_id r with
    | None =>
      (Raise KeyError,
       World g1 (w_now w) (w_tasks w) (w_ready w) (w_rounds w)
             (w_next_round_id w) sent (w_log w) (w_chat_alive w))
    | Some row =>
      let r' := end_round (solved_by (w_now w) row p ROUND_TIME
                             (h_count (hints_ g))
                             (s_count (streak_after (streak_ g) p))) in
      (Ret tt,
       World (set_round (Some r') g1) (w_now w)
             (w_tasks w ++ [Task round_end_co Scheduled])
             (w_ready w ++ [Step (length (w_tasks w))])
             (<[r_id r' := r']> (w_rounds w))
             (w_next_round_id w) sent (w_log w) (w_chat_alive w))
    end
  end.
Proof.
  py_open w. unfold round_solved, announce_streak, streak_after,
    streak_announcement.
  destruct g_streak as [c pn pi].
  py_cases; rewrite ?app_nil_r; reflexivity.
Qed.

(** [round_timeout], behind its sleep, in closed form. *)
Lemma round_timeout_wake_spec w :
  round_timeout_wake w =
  match round_ (w_game w) with
  | None => (Raise AttributeError, w)
  | Some r =>
    match w_rounds w !! r_id r with
    | None => (Raise KeyError, w)
    | Some row =>
      (Ret tt,
       World (set_round (Some (end_round row)) (w_game w)) (w_now w)
             (w_tasks w ++ [Task round_end_co Scheduled])
             (w_ready w ++ [Step (length (w_tasks w))])
             (<[r_id row := end_round row]> (w_rounds w))
             (w_next_round_id w) (w_sent w) (w_log w) (w_chat_alive w))
    end
  end.
Proof.
  py_open w. unfold round_timeout_wake. py_cases; reflexivity.
Qed.

(** A game with its round replaced by an updated copy of the same row. *)
Lemma sound_replace_round w w' r r' :
  sound w ->
  round_ (w_game w) = Some r ->
  r_id r' = r_id r -> row_ok r' ->
  state (w_game w') <> STATE_QUESTION \/ state (w_game w') = state (w_game w) ->
  round_ (w_game w') = Some r' ->
  timer_start (w_game w') = timer_start (w_game w) ->
  timeout (w_game w') = timeout (w_game w) ->
  w_rounds w' = <[r_id r' := r']> (w_rounds w) ->
  w_next_round_id w' = w_next_round_id w ->
  (length (w_tasks w) <= length (w_tasks w'))%nat ->
  sound w'.
Proof.
  intros [S1 S2 S3 S4 S5] Hr Hid Hok Hst Hr' Hts Hto Hrs Hn Hl.
  split; rewrite ?Hr', ?Hts, ?Hto, ?Hrs, ?Hn.
  - intros k row Hk. apply lookup_insert_Some in Hk as [[<- <-]|[Hne Hk]].
    + split; [reflexivity|]. split; [|exact Hok].
      rewrite Hid. apply (S1 _ r). apply S2. exact Hr.
    + apply S1. exact Hk.
  - intros r0 [= <-]. apply lookup_insert_eq.
  - intros Hq. destruct Hst as [Hst|Hst]; [contradiction|].
    rewrite Hst in Hq. destruct (S3 Hq) as [_ Hto']. split; [eauto|exact Hto'].
  - intros _. apply S4. rewrite Hr. eauto.
  - intros tid Ht. specialize (S5 tid Ht). lia.
Qed.

Lemma row_ok_end_round r : row_ok r -> row_ok (end_round r).
Proof. intros Hr. exact Hr. Qed.

Lemma row_ok_solved_by now r p rt h s : row_ok (solved_by now r p rt h s).
Proof. intros _. cbn. eauto. Qed.

Lemma round_solved_sound p : keeps_w sound (round_solved p).
Proof.
  intros w Hw. rewrite round_solved_spec. cbv zeta.
  assert (Hpre : sound (World
            (set_streak (streak_after (streak_ (w_game w)) p)
               (set_state STATE_WAITING (w_game w)))
            (w_now w) (w_tasks w) (w_ready w) (w_rounds w) (w_next_round_id w)
            (w_sent w ++ streak_announcement (streak_ (w_game w)) p)
            (w_log w) (w_chat_alive w))).
  { destruct Hw as [S1 S2 S3 S4 S5]. split; cbn; auto. discriminate. }
  destruct (round_ (w_game w)) as [r|] eqn:Hr; [|exact Hpre].
  destruct (w_rounds w !! r_id r) as [row|] eqn:Hrow; [|exact Hpre].
  cbn [snd].
  pose proof (sound_round w Hw r Hr) as Hrr. rewrite Hrow in Hrr.
  injection Hrr as ->.
  lazymatch goal with
  | |- sound (World (set_round (Some ?r') _) _ _ _ _ _ _ _ _) =>
    eapply (sound_replace_round w _ r r')
  end; try exact Hw; try exact Hr; try reflexivity.
  - apply row_ok_end_round, row_ok_solved_by.
  - left. discriminate.
  - cbn. rewrite length_app. lia.
Qed.

Lemma round_timeout_wake_sound : keeps_w sound round_timeout_wake.
Proof.
  intros w Hw. rewrite round_timeout_wake_spec.
  destruct (round_ (w_game w)) as [r|] eqn:Hr; [|exact Hw].
  destruct (w_rounds w !! r_id r) as [row|] eqn:Hrow; [|exact Hw].
  cbn [snd].
  pose proof (sound_round w Hw r Hr) as Hrr. rewrite Hrow in Hrr.
  injection Hrr as ->.
  lazymatch goal with
  | |- sound (World (set_round (Some ?r') _) _ _ _ _ _ _ _ _) =>
    eapply (sound_replace_round w _ r r')
  end; try exact Hw; try exact Hr; try reflexivity.
  - apply row_ok_end_round. apply (sound_rows w Hw _ r Hrow).
  - right. reflexivity.
  - cbn. rewrite length_app. lia.
Qed.


(** Scheduling a task and keeping its handle. *)
Lemma spawn_timeout_sound c :
  keeps_w sound (let! t := async c in update (set_timeout (Some t))).
Proof.
  intros w [S1 S2 S3 S4 S5]. split; cbn; auto.
  - intros Hq. destruct (S3 Hq) as [Hr _]. split; [exact Hr|eauto].
  - intros tid [= <-]. rewrite length_app. cbn. lia.
Qed.

Lemma set_timer_start_sound t :
  keeps_w sound (update (set_timer_start (Some t))).
Proof. intros w [S1 S2 S3 S4 S5]. split; cbn; eauto. Qed.

Ltac keeps_step :=
  first
  [ apply keeps_w_ret | apply keeps_w_raise
  | apply log_sound | apply broadcast_sound | apply async_sound
  | apply cancel_sound | apply broadcast_info_sound
  | apply set_state_sound; discriminate
  | apply set_timer_start_sound
  | apply spawn_timeout_sound
  | apply update_sound; intros []; cbn; solve [auto]
  | apply keeps_w_when
  | apply keeps_w_bind; [|intros ?]
  | lazymatch goal with
    | |- keeps_w _ self => intros ? ?; assumption
    | |- keeps_w _ time => intros ? ?; assumption
    | |- keeps_w _ (if ?b then _ else _) => destruct b
    | |- keeps_w _ (match ?x with _ => _ end) => destruct x
    end ].

Lemma started_sound w rs q : sound w -> sound (started w rs q).
Proof.
  intros [S1 S2 S3 S4 S5]. split; cbn.
  - intros k row Hk. apply lookup_insert_Some in Hk as [[<- <-]|[Hne Hk]].
    + split; [reflexivity|]. split; [lia|]. intros Hs. discriminate.
    + destruct (S1 k row Hk) as (A & B & C).
      split; [exact A|]. split; [lia | exact C].
  - intros r0 [= <-]. apply lookup_insert_eq.
  - intros _. eauto.
  - intros _. eauto.
  - intros tid [= <-]. rewrite length_app. cbn. lia.
Qed.

Lemma start_new_round_sound : keeps_w sound start_new_round.
Proof.
  intros w Hw. rewrite start_new_round_closed.
  destruct (round_start (w_game w)) as [rs|]; [|exact Hw].
  destruct (draw_question rs (w_rounds w)) as [q|];
    [apply started_sound; exact Hw|].
  destruct (draw_question (w_now w) (w_rounds w)) as [q|];
    [apply started_sound; exact Hw|].
  cbn [snd]. revert Hw.
  apply (update_sound (set_round_start (Some (w_now w)))).
  intros []; cbn; auto.
Qed.

Ltac keeps_all :=
  repeat first
    [ apply round_solved_sound | apply round_timeout_wake_sound
    | apply start_new_round_sound | apply get_hint_sound
    | keeps_step ].

Lemma coro_step_sound c : keeps_w sound (coro_step c).
Proof.
  destruct c; unfold coro_step, round_end, delay_new_round,
    delay_new_round_wake, stop_game, _reset_streak; keeps_all.
Qed.

Lemma run_chat_sound p text : keeps_w sound (run_chat p text).
Proof.
  unfold run_chat, admin_run, admin_getattr_call, admin_next, admin_stop,
    admin_unlock, admin_start, next_round, stop_game; keeps_all.
Qed.

Lemma run_callback_sound cb w : sound w -> sound (run_callback cb w).
Proof.
  intros Hw. destruct cb as [tid|tid]; cbn.
  - destruct (w_tasks w !! tid) as [[c []]|]; try exact Hw.
    pose proof (coro_step_sound c w Hw) as Hs.
    destruct (coro_step c w) as [[[[c' d]|]|e] w']; cbn in Hs;
      (eapply sound_frame; [..|exact Hs]; try reflexivity;
       cbn; rewrite length_insert; lia).
  - destruct (w_tasks w !! tid) as [[c []]|]; try exact Hw;
      (eapply sound_frame; [..|exact Hw]; try reflexivity;
       cbn; rewrite length_insert; lia).
Qed.

Lemma run_ready_sound fuel w : sound w -> sound (run_ready fuel w).
Proof.
  revert w. induction fuel as [|fuel IH]; intros w Hw; cbn; [exact Hw|].
  destruct (w_ready w) as [|cb rest]; [exact Hw|].
  apply IH, run_callback_sound.
  eapply sound_frame; [..|exact Hw]; reflexivity.
Qed.

Lemma wake_sound w tid : sound w -> sound (wake w tid).
Proof.
  intros Hw. unfold wake.
  destruct (w_tasks w !! tid) as [[c []]|]; try exact Hw.
  eapply sound_frame; [..|exact Hw]; try reflexivity.
  cbn. rewrite length_insert. lia.
Qed.

Lemma wake_due_sound w : sound w -> sound (wake_due w).
Proof.
  unfold wake_due. generalize (due_order (due_from 0 (w_now w) (w_tasks w))).
  intros l. revert w. induction l as [|tid l IH]; intros w Hw; cbn.
  - exact Hw.
  - apply IH, wake_sound, Hw.
Qed.

Lemma init_world_sound t0 : sound (init_world t0).
Proof.
  split; cbn.
  - intros k row Hk. rewrite lookup_empty in Hk. discriminate.
  - intros r Hr. discriminate.
  - intros Hq. discriminate.
  - intros [x Hx]. discriminate.
  - intros tid Ht. discriminate.
Qed.

(** Every event keeps the game, the round table and the task table
    consistent. *)
Lemma handle_sound e w : sound w -> sound (handle e w).
Proof.
  intros Hw.
  assert (Hnow : forall t, sound (set_now t w))
    by (intros t; eapply sound_frame; [..|exact Hw]; reflexivity).
  destruct e as [t p text|t|n]; unfold handle.
  - change (w_chat_alive (set_now t w)) with (w_chat_alive w).
    destruct (w_chat_alive w); [|apply Hnow].
    apply run_ready_sound.
    pose proof (run_chat_sound p text (set_now t w) (Hnow t)) as Hs.
    destruct (run_chat p text (set_now t w)) as [[[]|e] w']; cbn in Hs;
      [exact Hs|].
    eapply sound_frame; [..|exact Hs]; reflexivity.
  - apply run_ready_sound, wake_due_sound, Hnow.
  - revert Hw. apply (update_sound (set_player_count n)). intros []; cbn; auto.
Qed.

Lemma reachable_sound w : reachable w -> sound w.
Proof.
  induction 1 as [t0|e w Hw IH]; [apply init_world_sound|].
  apply handle_sound. exact IH.
Qed.

(** In a consistent world [get_round_info] fails in one case only:
    phase Waiting with no round yet, the delay before the first round. *)
Lemma get_round_info_total w now :
  sound w ->
  (exists i, get_round_info now (w_game w) = Ret i) <->
  ~ (state (w_game w) = STATE_WAITING /\ round_ (w_game w) = None).
Proof.
  intros [S1 S2 S3 S4 S5]. unfold get_round_info.
  destruct (round_ (w_game w)) as [r|] eqn:Hr.
  - destruct S4 as [t0 Ht]; [eauto|]. rewrite Ht.
    destruct (S1 _ _ (S2 r eq_refl)) as (_ & _ & Hok).
    split; [intros _ [_ Hn]; discriminate|]. intros _.
    destruct (state (w_game w)); eauto.
    destruct (r_solved r) eqn:Hs; eauto.
    destruct (Hok Hs) as [[n Hn] [tk Htk]]. rewrite Hn, Htk. eauto.
  - destruct (state (w_game w)) eqn:Hst.
    + split; eauto. intros _ [Hw _]. discriminate.
    + destruct (S3 eq_refl) as [[x Hx] _]. discriminate.
    + split; [intros [i Hi]; discriminate | intros Hn; exfalso; auto].
    + split; eauto. intros _ [Hw _]. discriminate.
Qed.

(** In a consistent world [get_hint] never raises. *)
Lemma get_hint_returns w : sound w -> (get_hint w).1 = Ret tt.
Proof.
  intros [S1 S2 S3 S4 S5]. unfold get_hint, broadcast_info, get_round_info.
  py_open w. cbn in *. py_cbv.
  destruct g_state; try reflexivity. cbn.
  destruct (S3 eq_refl) as [[r ->] _]. destruct S4 as [t0 ->]; [eauto|].
  destruct (HINT_MAX <=? _); [reflexivity|].
  destruct (Qltb _ _); [reflexivity|].
  destruct (_ <? _); reflexivity.
Qed.

(** In a consistent world a chat message that is not an admin command
    of a player with permissions never raises: players cannot bring the
    chat loop down. *)
Lemma run_chat_returns p text w :
  sound w ->
  RE_ADMIN text = None \/ p_permissions p <= 0 ->
  (run_chat p text w).1 = Ret tt.
Proof.
  intros Hw Hadm.
  assert (Hcond : bool_decide (is_Some (RE_ADMIN text)) && (0 <? p_permissions p)
                  = false).
  { destruct Hadm as [->|Hp]; [reflexivity|].
    replace (0 <? p_permissions p) with false by (symmetry; apply Z.ltb_ge; lia).
    apply andb_false_r. }
  unfold run_chat. unfold bind at 1. unfold time. cbn [fst snd].
  unfold bind at 1. unfold update at 1. cbn [fst snd]. rewrite Hcond.
  set (w1 := with_game (set_last_action (w_now w)) w).
  assert (Hw1 : sound w1).
  { revert Hw. apply (update_sound (set_last_action (w_now w))).
    intros []; cbn; auto. }
  clearbody w1. clear Hw w Hcond Hadm.
  pose proof Hw1 as Hs. destruct Hw1 as [S1 S2 S3 S4 S5].
  py_open w1. cbn in S3, S4.
  unfold next_round. py_cbv.
  destruct g_state; py_cbv.
  - destruct (RE_START text); reflexivity.
  - destruct (S3 eq_refl) as [[r ->] [tid ->]]. py_cbv.
    destruct (check_answer _ _); py_cbv; [reflexivity|].
    destruct (RE_HINT text); py_cbv; [|reflexivity].
    pose proof (get_hint_returns _ Hs) as Hhint.
    destruct (get_hint _) as [[[]|e] w']; cbn in Hhint; [|discriminate].
    clear. py_open w'. py_cbv.
    destruct g_state; py_cbv;
      repeat (first [reflexivity | case_match; simplify_eq; py_cbv]).
  - repeat (first [reflexivity | case_match; simplify_eq; py_cbv]).
  - reflexivity.
Qed.

(** X1: every event is handled to the end.  In every reachable world the
    ready queue is empty, and it is empty again after any further event:
    each coroutine an event starts either returns or goes to sleep, after
    a bounded number of callbacks. *)
Theorem reachable_runs_dry w e :
  reachable w -> quiescent w /\ quiescent (handle e w).
Proof.
  intros Hw. split; [apply reachable_quiescent; exact Hw|].
  apply handle_quiescent, reachable_quiescent. exact Hw.
Qed.

(** X8: the outcomes of [start_new_round].  Without [round_start] it
    raises before anything is done.  It draws a question for
    [round_start] and, when that fails, once more for a [round_start]
    refreshed to now; the round it then starts is new, stored under the
    table's next id, the phase is Question, the hints are reset, the timer
    starts now and the new round timer is the timeout handle.  When the
    second draw fails too, [IndexError] leaves the coroutine and nothing
    has changed but [round_start]. *)
Theorem start_new_round_outcomes w :
  (round_start (w_game w) = None ->
     start_new_round w = (Raise AttributeError, w)) /\
  (forall rs q,
     round_start (w_game w) = Some rs ->
     draw_question rs (w_rounds w) = Some q ->
     start_new_round w = (Ret tt, started w rs q)) /\
  (forall rs q,
     round_start (w_game w) = Some rs ->
     draw_question rs (w_rounds w) = None ->
     draw_question (w_now w) (w_rounds w) = Some q ->
     start_new_round w = (Ret tt, started w (w_now w) q)) /\
  (forall rs,
     round_start (w_game w) = Some rs ->
     draw_question rs (w_rounds w) = None ->
     draw_question (w_now w) (w_rounds w) = None ->
     start_new_round w
     = (Raise IndexError, with_game (set_round_start (Some (w_now w))) w)).
Proof.
  rewrite start_new_round_closed. repeat apply conj.
  - intros ->. reflexivity.
  - intros rs q -> ->. reflexivity.
  - intros rs q -> -> ->. reflexivity.
  - intros rs -> -> ->. reflexivity.
Qed.

(** X12: the game, the round table and the task table stay consistent.
    Initially and after every event, each stored round sits under its own
    id, below the table's next id, and names its solver and time when it
    is solved; the game's round is the stored one; phase Question comes
    with a round and a timer handle; a game with a round has a timer
    start; and the timer handle is a task of the table. *)
Theorem game_stays_consistent :
  (forall t0, sound (init_world t0)) /\
  (forall e w, sound w -> sound (handle e w)).
Proof.
  split; [apply init_world_sound | apply handle_sound].
Qed.

(** X13: in a reachable world [get_round_info] fails in one case only,
    phase Waiting with no round yet: the delay before the first round. *)
Theorem reachable_get_round_info w now :
  reachable w ->
  (exists i, get_round_info now (w_game w) = Ret i) <->
  ~ (state (w_game w) = STATE_WAITING /\ round_ (w_game w) = None).
Proof.
  intros Hw. apply get_round_info_total, reachable_sound, Hw.
Qed.

(** X14: in a reachable world [get_hint] never raises. *)
Theorem reachable_get_hint_returns w :
  reachable w -> (get_hint w).1 = Ret tt.
Proof.
  intros Hw. apply get_hint_returns, reachable_sound, Hw.
Qed.

(** X15: in a reachable world a chat message that is not an admin command
    of a player with permissions never raises: players cannot bring the
    chat loop down. *)
Theorem reachable_run_chat_returns p text w :
  reachable w ->
  RE_ADMIN text = None \/ p_permissions p <= 0 ->
  (run_chat p text w).1 = Ret tt.
Proof.
  intros Hw. apply run_chat_returns, reachable_sound, Hw.
Qed.

End Inv.

(** ** The demo game, once more *)

Lemma reachable_runs_dry_witness :
  quiescent asking /\ quiescent (handle (Tick 50) asking).
Proof.
  apply (reachable_runs_dry asking (Tick 50)). apply reachable_run_events.
Defined.

Lemma run_chat_locked_witness :
  run_chat bob "!start" locked = (Ret tt, only_seen locked).
Proof.
  apply run_chat_locked; [vm_compute; reflexivity|].
  left. vm_compute. reflexivity.
Defined.

Lemma run_chat_idle_witness :
  run_chat bob "!start" stopped
  = (Ret tt,
     if RE_START "!start" then
       with_game (set_timeout (Some (length (w_tasks stopped))))
         (async (delay_new_round_co true) (only_seen stopped)).2
     else only_seen stopped).
Proof.
  apply run_chat_idle; [vm_compute; reflexivity|].
  left. vm_compute. reflexivity.
Defined.

Lemma run_chat_waiting_witness :
  run_chat bob "!next" answered
  = (Ret tt,
     match timeout (w_game answered) with
     | Some tid =>
       if RE_NEXT "!next" && has_streak (w_game answered) bob then
         (async start_new_round_co
            (set_ready (w_ready answered ++ [Cancel tid])
                       (only_seen answered))).2
       else only_seen answered
     | None => only_seen answered
     end).
Proof.
  apply run_chat_waiting; [vm_compute; reflexivity|].
  left. vm_compute. reflexivity.
Defined.

Lemma delay_new_round_wake_cases_witness :
  state (w_game (delay_new_round_wake deserted).2) = STATE_IDLE /\
  delay_new_round_wake asking = (Ret tt, (async start_new_round_co asking).2).
Proof.
  pose proof (delay_new_round_wake_cases deserted) as Hd.
  pose proof (delay_new_round_wake_cases asking) as Ha.
  cbv zeta in Hd, Ha. destruct Hd as [Hd _]. destruct Ha as [_ Ha]. split.
  - destruct Hd as [Hst _]; [left; vm_compute; reflexivity|]. exact Hst.
  - apply Ha; vm_compute; discriminate.
Defined.

Lemma stop_game_spec_witness :
  (stop_game None true asking).1 = Ret tt /\
  state (w_game (stop_game None true asking).2) = STATE_LOCKED /\
  w_sent (stop_game (Some "") false asking).2
  = (w_sent asking ++
     [SysStopped "Stopping due to inactivity!";
      SetInfo (RoundInfo ViewIdle TimerNone)])%list.
Proof.
  pose proof (stop_game_spec None true asking) as Hn.
  pose proof (stop_game_spec (Some "") false asking) as He.
  cbv zeta in Hn, He.
  rewrite Hn, He; [|right; vm_compute; eexists; reflexivity ..].
  repeat split; reflexivity.
Defined.

Lemma start_new_round_outcomes_witness :
  start_new_round answered = (Ret tt, started answered 0 the_question).
Proof.
  destruct (start_new_round_outcomes answered) as (_ & Hok & _).
  apply Hok; vm_compute; reflexivity.
Defined.

Lemma question_timer_witness :
  exists width left,
    get_round_info 15 (w_game asking)
    = Ret (RoundInfo (ViewQuestion 1 "Geography" "Capital of France?" None)
                     (TimerQuestion width left)) /\
    (0 <= left <= ROUND_TIME)%Q /\ (0 <= width <= 100)%Q.
Proof.
  destruct (question_timer 15 (w_game asking) first_round 5)
    as (width & left & Hinfo & _ & _ & Hin & _);
    [vm_compute; reflexivity ..|].
  exists width, left. split; [exact Hinfo|].
  apply Hin. split; vm_compute; discriminate.
Defined.

Lemma RE_ADMIN_exclusive_witness :
  RE_START "!a stop" = false /\ RE_HINT "!a stop" = false /\
  RE_NEXT "!a stop" = false.
Proof.
  apply RE_ADMIN_exclusive. vm_compute. eexists. reflexivity.
Defined.

Lemma reachable_hints_bounded_witness : hints_bounded (w_game asking).
Proof.
  apply reachable_hints_bounded. apply reachable_run_events.
Defined.

Lemma game_stays_consistent_witness : sound (handle (Tick 50) asking).
Proof.
  destruct game_stays_consistent as [_ Hkeep]. apply Hkeep.
  apply reachable_sound. apply reachable_run_events.
Defined.

Lemma reachable_get_round_info_witness :
  (exists i, get_round_info 1 (w_game starting) = Ret i) <->
  ~ (state (w_game starting) = STATE_WAITING /\
     round_ (w_game starting) = None).
Proof.
  apply reachable_get_round_info. apply reachable_run_events.
Defined.

Lemma reachable_get_hint_returns_witness : (get_hint asking).1 = Ret tt.
Proof.
  apply reachable_get_hint_returns. apply reachable_run_events.
Defined.

Lemma reachable_run_chat_returns_witness :
  (run_chat bob "!hint" asking).1 = Ret tt.
Proof.
  apply reachable_run_chat_returns; [apply reachable_run_events|].
  left. vm_compute. reflexivity.
Defined.

(** * The game, event by event *)

(** Running the monad on a world that is written out, the scheduler's
    setters included. *)
Ltac py_run :=
  cbv beta iota zeta delta
    [bind ret raise update self time broadcast log async call_soon_cancel
     when with_game Round_get Round_save set_rounds _reset_streak _reset_hints
     set_state set_last_action set_timeout set_timer_start set_round
     set_player_count set_hints set_streak set_round_start
     set_ready set_task set_tasks set_now set_chat_alive only_seen
     w_game w_now w_tasks w_ready
     w_rounds w_next_round_id w_sent
     w_log w_chat_alive
     state last_action timeout
     timer_start round_ player_count
     hints_ streak_ round_start
     phase_eqb negb orb andb fst snd];
  cbn [app].

Ltac py_run_in H :=
  cbv beta iota zeta delta
    [bind ret raise update self time broadcast log async call_soon_cancel
     when with_game Round_get Round_save set_rounds _reset_streak _reset_hints
     set_state set_last_action set_timeout set_timer_start set_round
     set_player_count set_hints set_streak set_round_start
     set_ready set_task set_tasks set_now set_chat_alive only_seen
     w_game w_now w_tasks w_ready
     w_rounds w_next_round_id w_sent
     w_log w_chat_alive
     state last_action timeout
     timer_start round_ player_count
     hints_ streak_ round_start
     phase_eqb negb orb andb fst snd] in H;
  cbn [app] in H.

(** Which effect a branch of a coroutine has. *)
Ltac effect_solve :=
  first
  [ apply eff_keep; reflexivity
  | eapply eff_spawn; [ | reflexivity | reflexivity | reflexivity];
    reflexivity
  | eapply eff_timer;
    [ | reflexivity | reflexivity | reflexivity
    | intros [Hi|Hi]; discriminate Hi];
    reflexivity
  | eapply eff_stop; [reflexivity | reflexivity | reflexivity | reflexivity] ].

Ltac chat_effect_solve :=
  first
  [ apply chat_keep; reflexivity
  | eapply chat_swap;
    [ | reflexivity | reflexivity
    | cbn; rewrite <- ?app_assoc; reflexivity | reflexivity | reflexivity];
    reflexivity
  | eapply chat_start;
    [left; apply phase_eqb_eq; assumption | reflexivity ..] ].

(** Case analysis of a lookup in a task table that was extended or
    updated. *)
Ltac look_done :=
  first [ solve [eauto] | cbn in *; congruence | cbn in *; lia | idtac ].

Ltac look :=
  repeat match goal with
  | H : <[_ := _]> _ !! _ = Some _ |- _ =>
      apply list_lookup_insert_Some in H;
      destruct H as [(? & ? & ?)|(? & H)]
  | H : (_ ++ [_])%list !! _ = Some _ |- _ =>
      apply lookup_app_Some in H;
      destruct H as [H|(? & H)]
  | H : [_] !! _ = Some _ |- _ =>
      apply list_lookup_singleton_Some in H; destruct H as [? ?]
  end; simplify_eq.

(** A premise about a run of the demo game, by running it. *)
Ltac by_run :=
  solve [ vm_compute; first [reflexivity | discriminate]
        | left; vm_compute; first [reflexivity | discriminate]
        | right; vm_compute; first [reflexivity | discriminate]
        | right; vm_compute; eexists; reflexivity ].

Section Transitions.
Context `{Models}.

Lemma run_ready_nil fuel w : w_ready w = [] -> run_ready fuel w = w.
Proof. intros Hr. destruct fuel; cbn; [reflexivity|]. rewrite Hr. reflexivity. Qed.

Lemma run_ready_cons fuel cb rest w :
  w_ready w = cb :: rest ->
  run_ready (S fuel) w = run_ready fuel (run_callback cb (set_ready rest w)).
Proof. intros Hr. cbn. rewrite Hr. reflexivity. Qed.

(** More fuel than the queue needs changes nothing. *)
Lemma run_ready_more n m w :
  w_ready (run_ready n w) = [] -> run_ready (n + m) w = run_ready n w.
Proof.
  revert w. induction n as [|n IH]; intros w Hq.
  - apply run_ready_nil. exact Hq.
  - cbn [run_ready Nat.add] in *.
    destruct (w_ready w) as [|cb rest]; [reflexivity|]. apply IH. exact Hq.
Qed.

Lemma run_ready_enough n w w' :
  (n <= 8)%nat ->
  run_ready n w = w' ->
  w_ready w' = [] ->
  run_ready (fuel_for w) w = w'.
Proof.
  intros Hle <- Hq. replace (fuel_for w) with (n + (fuel_for w - n))%nat
    by (unfold fuel_for; lia).
  apply run_ready_more. exact Hq.
Qed.

Lemma step_finishes tid c w w' :
  w_tasks w !! tid = Some (Task c Scheduled) ->
  coro_step c w = (Ret None, w') ->
  run_callback (Step tid) w = set_task tid (Task c Finished) w'.
Proof. intros Ht Hs. unfold run_callback. rewrite Ht, Hs. reflexivity. Qed.

Lemma step_sleeps tid c c' d w w' :
  w_tasks w !! tid = Some (Task c Scheduled) ->
  coro_step c w = (Ret (Some (c', d)), w') ->
  run_callback (Step tid) w
  = set_task tid (Task c' (Sleeping (w_now w' + d)%Q)) w'.
Proof. intros Ht Hs. unfold run_callback. rewrite Ht, Hs. reflexivity. Qed.

Lemma insert_at_length {A} (l l' : list A) (x y : A) :
  <[length l := x]> (l ++ y :: l')%list = (l ++ x :: l')%list.
Proof.
  replace (length l) with (length l + 0)%nat by lia.
  rewrite insert_app_r. reflexivity.
Qed.




(** ** Task-table bookkeeping *)

Lemma lookup_tail {A} (N L : list A) m k :
  length N = m -> (N ++ L)%list !! (m + k)%nat = L !! k.
Proof.
  intros <-. rewrite lookup_app_r by lia.
  replace (length N + k - length N)%nat with k by lia. reflexivity.
Qed.

Lemma lookup_tail0 {A} (N L : list A) m :
  length N = m -> (N ++ L)%list !! m = L !! 0%nat.
Proof.
  intros Hm. rewrite <- (lookup_tail N L m 0 Hm). f_equal. lia.
Qed.

Lemma insert_tail {A} (N L : list A) m k (x : A) :
  length N = m -> <[(m + k)%nat := x]> (N ++ L)%list = (N ++ <[k := x]> L)%list.
Proof. intros <-. apply insert_app_r. Qed.

Lemma insert_tail0 {A} (N L : list A) m (x : A) :
  length N = m -> <[m := x]> (N ++ L)%list = (N ++ <[0%nat := x]> L)%list.
Proof.
  intros Hm. rewrite <- (insert_tail N L m 0 x Hm). f_equal. lia.
Qed.

Lemma insert_head {A} (N L : list A) i (x : A) :
  (i < length N)%nat -> <[i := x]> (N ++ L)%list = (<[i := x]> N ++ L)%list.
Proof. intros Hi. apply insert_app_l. exact Hi. Qed.

(** ** Timers that are due *)

Lemma due_from_none i now ts :
  Forall (fun t => is_sleeping t = false) ts -> due_from i now ts = [].
Proof.
  intros Hf. revert i. induction Hf as [|[c st] ts Hx Hf IH]; intros i.
  - reflexivity.
  - cbn in *. destruct st; try discriminate; apply IH.
Qed.

Lemma due_from_app i now l1 l2 :
  due_from i now (l1 ++ l2)
  = (due_from i now l1 ++ due_from (i + length l1) now l2)%list.
Proof.
  revert i. induction l1 as [|[c st] l1 IH]; intros i.
  - cbn. f_equal. lia.
  - cbn [app due_from length].
    replace (i + S (length l1))%nat with (S i + length l1)%nat by lia.
    destruct st as [|dl| | |]; try apply IH.
    destruct (Qle_bool dl now); cbn [app]; [f_equal|]; apply IH.
Qed.

Lemma timers_split (ts : list task) tid c d :
  ts !! tid = Some (Task c (Sleeping d)) ->
  length (filter (fun t => is_sleeping t = true) ts) = 1%nat ->
  Forall (fun t => is_sleeping t = false) (take tid ts) /\
  Forall (fun t => is_sleeping t = false) (drop (S tid) ts).
Proof.
  intros Ht Hn. rewrite <- (take_drop_middle ts tid _ Ht) in Hn.
  rewrite filter_app, filter_cons_True, length_app in Hn by reflexivity.
  cbn [length] in Hn.
  assert (Hz : forall l : list task,
             length (filter (fun t => is_sleeping t = true) l) = 0%nat ->
             Forall (fun t => is_sleeping t = false) l).
  { intros l Hl. apply Forall_forall. intros x Hx.
    destruct (is_sleeping x) eqn:Hs; [|reflexivity].
    assert (Hin : x ∈ filter (fun t => is_sleeping t = true) l)
      by (apply list_elem_of_filter; auto).
    destruct (filter _ l); [inversion Hin|discriminate]. }
  split; apply Hz; lia.
Qed.

Lemma due_single now (ts : list task) tid c d :
  ts !! tid = Some (Task c (Sleeping d)) ->
  length (filter (fun t => is_sleeping t = true) ts) = 1%nat ->
  due_order (due_from 0 now ts) = if Qle_bool d now then [tid] else [].
Proof.
  intros Ht Hn. destruct (timers_split ts tid c d Ht Hn) as [H1 H2].
  rewrite <- (take_drop_middle ts tid _ Ht) at 1.
  rewrite due_from_app, (due_from_none _ _ _ H1). cbn [app due_from].
  rewrite (due_from_none _ _ _ H2).
  rewrite length_take_le by (apply lookup_lt_Some in Ht; lia).
  destruct (Qle_bool d now); reflexivity.
Qed.

(** A tick at which the only timer is due wakes that timer, and runs what
    follows. *)
Lemma handle_tick_due t w tid c d n w' :
  w_ready w = [] ->
  w_tasks w !! tid = Some (Task c (Sleeping d)) ->
  outstanding_timers w = 1%nat ->
  (d <= t)%Q ->
  (n <= 8)%nat ->
  run_ready n (World (w_game w) (w_now (set_now t w))
                     (<[tid := Task c Scheduled]> (w_tasks w)) [Step tid]
                     (w_rounds w) (w_next_round_id w) (w_sent w) (w_log w)
                     (w_chat_alive w)) = w' ->
  w_ready w' = [] ->
  handle (Tick t) w = w'.
Proof.
  intros Hq Ht Hn Hd Hle Hrun Hq'. unfold handle. cbv zeta.
  assert (Hw : wake_due (set_now t w)
               = World (w_game w) (w_now (set_now t w))
                     (<[tid := Task c Scheduled]> (w_tasks w)) [Step tid]
                     (w_rounds w) (w_next_round_id w) (w_sent w) (w_log w)
                     (w_chat_alive w)).
  { unfold wake_due. cbn [set_now w_tasks].
    rewrite (due_single _ _ tid c d Ht Hn).
    replace (Qle_bool d _) with true.
    2:{ symmetry. apply Qle_bool_iff. unfold set_now. cbn [w_now].
        destruct (Qle_bool (w_now w) t) eqn:Hc; [exact Hd|].
        assert (~ (w_now w <= t)%Q) by (rewrite <- Qle_bool_iff, Hc; discriminate).
        lra. }
    cbn [fold_left]. unfold wake. cbn [set_now w_tasks]. rewrite Ht.
    py_open w. cbn in Hq. subst. reflexivity. }
  rewrite Hw. eapply run_ready_enough; eauto.
Qed.


Lemma handle_chat t p text w w1 n w' :
  w_chat_alive w = true ->
  run_chat p text (set_now t w) = (Ret tt, w1) ->
  (n <= 8)%nat ->
  run_ready n w1 = w' ->
  w_ready w' = [] ->
  handle (Chat t p text) w = w'.
Proof.
  intros Ha Hc Hle Hrun Hq. unfold handle. cbv zeta.
  replace (w_chat_alive (set_now t w)) with true by (rewrite <- Ha; reflexivity).
  rewrite Hc. eapply run_ready_enough; eauto.
Qed.


Lemma timers_added (ts L : list task) :
  length (filter (fun t => is_sleeping t = true) (ts ++ L)%list)
  = (length (filter (fun t => is_sleeping t = true) ts)
     + length (filter (fun t => is_sleeping t = true) L))%nat.
Proof. rewrite filter_app, length_app. reflexivity. Qed.

Lemma timers_replaced (ts L : list task) tid c d x :
  ts !! tid = Some (Task c (Sleeping d)) ->
  length (filter (fun t => is_sleeping t = true) ts) = 1%nat ->
  is_sleeping x = false ->
  length (filter (fun t => is_sleeping t = true) (<[tid := x]> ts ++ L)%list)
  = length (filter (fun t => is_sleeping t = true) L).
Proof.
  intros Ht Hn Hx. destruct (timers_split ts tid c d Ht Hn) as [H1 H2].
  assert (Hz : forall l : list task,
             Forall (fun t => is_sleeping t = false) l ->
             filter (fun t => is_sleeping t = true) l = []).
  { intros l Hl. induction Hl as [|y l Hy Hl IH]; [reflexivity|].
    rewrite filter_cons_False by congruence. exact IH. }
  rewrite insert_take_drop by (apply lookup_lt_Some in Ht; exact Ht).
  rewrite !filter_app, filter_cons_False by congruence.
  rewrite (Hz _ H1), (Hz _ H2). reflexivity.
Qed.

(** [round_end] in closed form, given the view it broadcasts. *)
Lemma round_end_spec w info :
  get_round_info (w_now w)
    (set_timer_start (Some (w_now w)) (set_state STATE_WAITING (w_game w)))
  = Ret info ->
  round_end w =
  (Ret tt,
   World (set_timeout (Some (length (w_tasks w)))
            (set_timer_start (Some (w_now w))
               (set_state STATE_WAITING (w_game w))))
         (w_now w)
         (w_tasks w ++ [Task (delay_new_round_co false) Scheduled])
         (w_ready w ++ [Step (length (w_tasks w))])
         (w_rounds w) (w_next_round_id w)
         (w_sent w ++ [SetInfo info])
         (w_log w) (w_chat_alive w)).
Proof.
  intros Hi. py_open w. unfold round_end, broadcast_info. py_run_in Hi. py_run.
  rewrite Hi. reflexivity.
Qed.

Ltac task_len :=
  rewrite ?length_app, ?length_insert; cbn [length]; try lia; try reflexivity.

Ltac task_set :=
  py_run; rewrite ?length_app, ?length_insert, <- ?app_assoc;
  cbn [app length];
  first [ rewrite insert_tail0 by task_len
        | rewrite insert_tail by task_len ];
  cbn [insert list_insert].

Ltac task_at :=
  py_run; rewrite ?length_app, ?length_insert; cbn [length];
  first [ rewrite lookup_tail0 by task_len
        | rewrite lookup_tail by task_len ];
  reflexivity.

(** X20: the round timer fires on an unsolved round: the round is closed, the
    game waits, the clients are shown the answer, and the next round is
    due in [WAIT_TIME]. *)
Theorem round_timer_fires t tid d r row w :
  w_ready w = [] ->
  w_tasks w !! tid = Some (Task round_timeout_slept (Sleeping d)) ->
  outstanding_timers w = 1%nat ->
  (d <= t)%Q ->
  round_ (w_game w) = Some r ->
  w_rounds w !! r_id r = Some row ->
  r_solved row = false ->
  let now := w_now (set_now t w) in
  let g := w_game w in
  handle (Tick t) w =
  World (Game STATE_WAITING (last_action g)
              (Some (length (w_tasks w) + 1)%nat) (Some now)
              (Some (end_round row)) (player_count g) (hints_ g) (streak_ g)
              (round_start g))
        now
        (<[tid := Task round_timeout_slept Finished]> (w_tasks w) ++
         [Task round_end_co Finished;
          Task delay_new_round_slept (Sleeping (now + WAIT_TIME)%Q)])
        [] (<[r_id row := end_round row]> (w_rounds w)) (w_next_round_id w)
        (w_sent w ++
         [SetInfo (RoundInfo
            (ViewTimesUp (r_id row) (q_question (r_question row))
                         (q_primary_answer (r_question row)))
            (TimerWaiting ((WAIT_TIME - (now - now)) / WAIT_TIME * 100)%Q
                          (WAIT_TIME - (now - now))%Q))])
        (w_log w) (w_chat_alive w) /\
  outstanding_timers (handle (Tick t) w) = 1%nat.
Proof.
  intros Hq Ht Hn Hd Hr Hrow Hs now g.
  match goal with |- ?A /\ _ => assert (Heq : A) end.
  {
    eapply (handle_tick_due t w tid _ d 3);
      [exact Hq|exact Ht|exact Hn|exact Hd|lia| |reflexivity].
    subst now g. assert (Hlt := lookup_lt_Some _ _ _ Ht).
    py_open w.
    py_run_in Hq; py_run_in Ht; py_run_in Hr; py_run_in Hrow; py_run_in Hlt.
    subst. py_run.
    (* the timer's task *)
    erewrite run_ready_cons; [|py_run; reflexivity].
    erewrite step_finishes;
      [|py_run; apply list_lookup_insert_eq; exact Hlt|].
    2:{ unfold coro_step, bind. rewrite round_timeout_wake_spec. py_run.
        rewrite Hrow. reflexivity. }
    py_run. rewrite insert_head, list_insert_insert_eq by task_len.
    (* round_end *)
    erewrite run_ready_cons; [|py_run; reflexivity].
    erewrite step_finishes;
      [|task_at|].
    2:{ unfold coro_step, bind. erewrite round_end_spec; [py_run; reflexivity|].
        destruct row as [id q st sol so tk pts hn sn en]. cbn in Hs. subst.
        reflexivity. }
    py_run. rewrite !length_insert, <- !app_assoc. cbn [app].
    rewrite insert_tail0 by task_len. cbn [insert list_insert].
    (* the delay *)
    erewrite run_ready_cons; [|py_run; reflexivity].
    erewrite step_sleeps;
      [|task_at|].
    2:{ unfold coro_step, delay_new_round. py_run. reflexivity. }
    py_run. rewrite length_app, length_insert, insert_tail by task_len.
    cbn [run_ready]. py_run.
    destruct row as [id q st sol so tk pts hn sn en]. reflexivity.
  }
  split; [exact Heq|]. rewrite Heq. unfold outstanding_timers in *.
  cbn [w_tasks].
  rewrite (timers_replaced _ _ tid round_timeout_slept d)
    by (try reflexivity; assumption).
  reflexivity.
Qed.


(** X17: the waiting game wakes to start the next round. *)
Theorem next_round_starts t tid d rs q w :
  w_ready w = [] ->
  w_tasks w !! tid = Some (Task delay_new_round_slept (Sleeping d)) ->
  outstanding_timers w = 1%nat ->
  (d <= t)%Q ->
  1 <= player_count (w_game w) ->
  (w_now (set_now t w) - last_action (w_game w) <= INACTIVITY_TIMEOUT)%Q ->
  round_start (w_game w) = Some rs ->
  draw_question rs (w_rounds w) = Some q ->
  let now := w_now (set_now t w) in
  let g := w_game w in
  let r := new_round_record (w_next_round_id w) q now in
  handle (Tick t) w =
  World (Game STATE_QUESTION (last_action g)
              (Some (length (w_tasks w) + 1)%nat) (Some now) (Some r)
              (player_count g) (Hints 0 None 0 0) (streak_ g) (Some rs))
        now
        (<[tid := Task delay_new_round_slept Finished]> (w_tasks w) ++
         [Task start_new_round_co Finished;
          Task round_timeout_slept (Sleeping (now + ROUND_TIME)%Q)])
        [] (<[w_next_round_id w := r]> (w_rounds w)) (w_next_round_id w + 1)
        (w_sent w ++
         [SetInfo (RoundInfo
            (ViewQuestion (w_next_round_id w) (q_category_names q)
                          (q_question q) None)
            (TimerQuestion ((ROUND_TIME - (now - now)) / ROUND_TIME * 100)%Q
                           (ROUND_TIME - (now - now))%Q))])
        (w_log w) (w_chat_alive w) /\
  outstanding_timers (handle (Tick t) w) = 1%nat.
Proof.
  intros Hq Ht Hn Hd Hp Hact Hrs Hdraw now g r.
  match goal with |- ?A /\ _ => assert (Heq : A) end.
  {
    eapply (handle_tick_due t w tid _ d 3);
      [exact Hq|exact Ht|exact Hn|exact Hd|lia| |reflexivity].
    subst now g r. assert (Hlt := lookup_lt_Some _ _ _ Ht).
    py_open w.
    py_run_in Hq; py_run_in Ht; py_run_in Hrs; py_run_in Hdraw; py_run_in Hlt;
      py_run_in Hp; py_run_in Hact.
    subst. py_run.
    assert (Hc : (g_player_count <? 1)
                 || Qltb INACTIVITY_TIMEOUT
                      ((if Qle_bool now t then t else now) - g_last_action)
                 = false).
    { apply orb_false_iff. split; [apply Z.ltb_ge; lia|].
      apply Qltb_ge. exact Hact. }
    unfold orb in Hc.
    (* the delay wakes *)
    erewrite run_ready_cons; [|py_run; reflexivity].
    erewrite step_finishes;
      [|py_run; apply list_lookup_insert_eq; exact Hlt|].
    2:{ unfold coro_step, delay_new_round_wake. py_run. rewrite Hc. reflexivity. }
    py_run. rewrite insert_head, list_insert_insert_eq by task_len.
    (* start_new_round *)
    erewrite run_ready_cons; [|py_run; reflexivity].
    erewrite step_finishes; [|task_at|].
    2:{ unfold coro_step, bind. rewrite start_new_round_closed. py_run.
        rewrite Hdraw. unfold started. py_run. reflexivity. }
    py_run. rewrite !length_insert, <- !app_assoc. cbn [app].
    rewrite insert_tail0 by task_len. cbn [insert list_insert].
    (* the round timer *)
    erewrite run_ready_cons; [|py_run; reflexivity].
    erewrite step_sleeps; [|task_at|].
    2:{ unfold coro_step. py_run. reflexivity. }
    py_run. rewrite length_app, length_insert, insert_tail by task_len.
    cbn [run_ready]. py_run. reflexivity.
  }
  split; [exact Heq|]. rewrite Heq. unfold outstanding_timers in *.
  cbn [w_tasks].
  rewrite (timers_replaced _ _ tid delay_new_round_slept d)
    by (try reflexivity; assumption).
  reflexivity.
Qed.

Lemma get_round_info_idle now g :
  state g = STATE_IDLE ->
  round_ g = None \/ is_Some (timer_start g) ->
  get_round_info now g = Ret (RoundInfo ViewIdle TimerNone).
Proof.
  intros Hs Hr. destruct g as [st la to ts rd pc hs sk rs]. cbn in *. subst.
  unfold get_round_info. cbn.
  destruct Hr as [->|[t0 ->]]; [reflexivity|]. destruct rd; reflexivity.
Qed.

(** X18: the waiting game wakes among no players, or after a long silence:
    it stops. *)
Theorem inactivity_stops t tid d w :
  w_ready w = [] ->
  w_tasks w !! tid = Some (Task delay_new_round_slept (Sleeping d)) ->
  outstanding_timers w = 1%nat ->
  (d <= t)%Q ->
  player_count (w_game w) < 1 \/
  (INACTIVITY_TIMEOUT < w_now (set_now t w) - last_action (w_game w))%Q ->
  timeout (w_game w) = Some tid ->
  round_ (w_game w) = None \/ is_Some (timer_start (w_game w)) ->
  handle (Tick t) w =
  World (set_state STATE_IDLE (w_game w)) (w_now (set_now t w))
        (<[tid := Task delay_new_round_slept Finished]> (w_tasks w))
        [] (w_rounds w) (w_next_round_id w)
        (w_sent w ++
         [SysStopped "Stopping due to inactivity!";
          SetInfo (RoundInfo ViewIdle TimerNone)])
        (w_log w) (w_chat_alive w) /\
  outstanding_timers (handle (Tick t) w) = 0%nat.
Proof.
  intros Hq Ht Hn Hd Hin Hto Hr.
  match goal with |- ?A /\ _ => assert (Heq : A) end.
  {
    eapply (handle_tick_due t w tid _ d 2);
      [exact Hq|exact Ht|exact Hn|exact Hd|lia| |reflexivity].
    assert (Hlt := lookup_lt_Some _ _ _ Ht).
    py_open w.
    py_run_in Hq; py_run_in Ht; py_run_in Hto; py_run_in Hlt; py_run_in Hin;
      py_run_in Hr.
    subst. py_run.
    assert (Hc : (g_player_count <? 1)
                 || Qltb INACTIVITY_TIMEOUT
                      ((if Qle_bool now t then t else now) - g_last_action)
                 = true).
    { apply orb_true_iff. destruct Hin as [Hin|Hin];
        [left; apply Z.ltb_lt; exact Hin|right; apply Qltb_lt; exact Hin]. }
    unfold orb in Hc.
    erewrite run_ready_cons; [|py_run; reflexivity].
    erewrite step_finishes;
      [|py_run; apply list_lookup_insert_eq; exact Hlt|].
    2:{ unfold coro_step, delay_new_round_wake, stop_game, broadcast_info.
        py_run. rewrite Hc.
        rewrite bool_decide_true by discriminate. py_run.
        rewrite get_round_info_idle by (try reflexivity; exact Hr).
        py_run. reflexivity. }
    py_run. rewrite list_insert_insert_eq.
    erewrite run_ready_cons; [|py_run; reflexivity].
    unfold run_callback. py_run.
    rewrite list_lookup_insert_eq by exact Hlt.
    cbn [run_ready]. rewrite <- app_assoc. reflexivity.
  }
  split; [exact Heq|]. rewrite Heq. unfold outstanding_timers in *.
  cbn [w_tasks]. rewrite <- (app_nil_r (<[tid := _]> (w_tasks w))).
  rewrite (timers_replaced _ _ tid delay_new_round_slept d)
    by (try reflexivity; assumption).
  reflexivity.
Qed.


Lemma not_admin p text :
  RE_ADMIN text = None \/ p_permissions p <= 0 ->
  bool_decide (is_Some (RE_ADMIN text)) && (0 <? p_permissions p) = false.
Proof.
  intros [Hn|Hp].
  - rewrite Hn, bool_decide_false; [reflexivity|]. intros [x Hx]. discriminate.
  - replace (0 <? p_permissions p) with false
      by (symmetry; apply Z.ltb_ge; lia).
    apply andb_false_r.
Qed.

(** X19: a right answer during the question: the round timer is cancelled,
    the round is recorded as solved by the player, the game waits and
    the next round is due in [WAIT_TIME]. *)
Theorem answer_solves t p text tid c d r row w :
  w_ready w = [] ->
  w_chat_alive w = true ->
  state (w_game w) = STATE_QUESTION ->
  RE_ADMIN text = None \/ p_permissions p <= 0 ->
  round_ (w_game w) = Some r ->
  check_answer (r_question r) text = true ->
  timeout (w_game w) = Some tid ->
  w_tasks w !! tid = Some (Task c (Sleeping d)) ->
  w_rounds w !! r_id r = Some row ->
  let now := w_now (set_now t w) in
  let g := w_game w in
  let s' := streak_after (streak_ g) p in
  let taken := (now - r_start row)%Q in
  let points := award_points ROUND_TIME taken (h_count (hints_ g))
                             (s_count s') in
  let r' := Round (r_id row) (r_question row) (r_start row) true
                  (Some (p_name p)) (Some taken) (Some points)
                  (Some (h_count (hints_ g))) (Some (s_count s')) true in
  handle (Chat t p text) w =
  World (Game STATE_WAITING now (Some (length (w_tasks w) + 2)%nat)
              (Some now) (Some r') (player_count g) (hints_ g) s'
              (round_start g))
        now
        (<[tid := Task c Cancelled]> (w_tasks w) ++
         [Task (round_solved_co p) Finished;
          Task round_end_co Finished;
          Task delay_new_round_slept (Sleeping (now + WAIT_TIME)%Q)])
        [] (<[r_id row := r']> (w_rounds w)) (w_next_round_id w)
        (w_sent w ++ streak_announcement (streak_ g) p ++
         [SetInfo (RoundInfo
            (ViewSolved (r_id row) (p_name p) (Some points) taken
                        (q_question (r_question row))
                        (q_primary_answer (r_question row)))
            (TimerWaiting ((WAIT_TIME - (now - now)) / WAIT_TIME * 100)%Q
                          (WAIT_TIME - (now - now))%Q))])
        (w_log w) true /\
  (outstanding_timers w = 1%nat ->
   outstanding_timers (handle (Chat t p text) w) = 1%nat).
Proof.
  intros Hq Ha Hs Hadm Hr Hok Hto Ht Hrow now g s' taken points r'.
  match goal with |- ?A /\ _ => assert (Heq : A) end.
  {
    assert (Hna := not_admin p text Hadm). unfold andb in Hna.
    assert (Hlt := lookup_lt_Some _ _ _ Ht).
    subst now g s' taken points r'. py_open w.
    py_run_in Hq; py_run_in Ha; py_run_in Hs; py_run_in Hr; py_run_in Hto;
      py_run_in Ht; py_run_in Hrow; py_run_in Hlt.
    subst. py_run.
    set (now' := if Qle_bool now t then t else now).
    eapply (handle_chat _ _ _ _ _ 4); [reflexivity| |lia| |reflexivity].
    { unfold run_chat. py_run. rewrite Hna. py_run. rewrite Hok. py_run.
      reflexivity. }
    fold now'.
    (* the cancellation *)
    erewrite run_ready_cons; [|py_run; reflexivity].
    unfold run_callback at 1. py_run.
    rewrite lookup_app_l, Ht by exact Hlt.
    py_run. rewrite insert_head by exact Hlt.
    (* round_solved *)
    erewrite run_ready_cons; [|py_run; reflexivity].
    erewrite step_finishes; [|task_at|].
    2:{ unfold coro_step, bind. rewrite round_solved_spec. py_run.
        rewrite Hrow. reflexivity. }
    task_set.
    (* round_end *)
    erewrite run_ready_cons; [|py_run; reflexivity].
    erewrite step_finishes; [|task_at|].
    2:{ unfold coro_step, bind. erewrite round_end_spec; [py_run; reflexivity|].
        reflexivity. }
    task_set.
    (* the delay *)
    erewrite run_ready_cons; [|py_run; reflexivity].
    erewrite step_sleeps; [|task_at|].
    2:{ unfold coro_step, delay_new_round. py_run. reflexivity. }
    task_set.
    cbn [run_ready]. py_run. reflexivity.
  }
  split; [exact Heq|]. intros Hn. rewrite Heq.
  unfold outstanding_timers in *. cbn [w_tasks].
  rewrite (timers_replaced _ _ tid c d) by (try reflexivity; assumption).
  reflexivity.
Qed.


(** X21: [!next] from the holder of a streak, while the game waits: the delay
    is cancelled and the next round starts at once. *)
Theorem next_skips_wait t p text tid c d rs q w :
  w_ready w = [] ->
  w_chat_alive w = true ->
  state (w_game w) = STATE_WAITING ->
  RE_ADMIN text = None \/ p_permissions p <= 0 ->
  RE_NEXT text = true ->
  has_streak (w_game w) p = true ->
  timeout (w_game w) = Some tid ->
  w_tasks w !! tid = Some (Task c (Sleeping d)) ->
  round_start (w_game w) = Some rs ->
  draw_question rs (w_rounds w) = Some q ->
  let now := w_now (set_now t w) in
  let g := w_game w in
  let r := new_round_record (w_next_round_id w) q now in
  handle (Chat t p text) w =
  World (Game STATE_QUESTION now (Some (length (w_tasks w) + 1)%nat)
              (Some now) (Some r) (player_count g) (Hints 0 None 0 0)
              (streak_ g) (Some rs))
        now
        (<[tid := Task c Cancelled]> (w_tasks w) ++
         [Task start_new_round_co Finished;
          Task round_timeout_slept (Sleeping (now + ROUND_TIME)%Q)])
        [] (<[w_next_round_id w := r]> (w_rounds w)) (w_next_round_id w + 1)
        (w_sent w ++
         [SetInfo (RoundInfo
            (ViewQuestion (w_next_round_id w) (q_category_names q)
                          (q_question q) None)
            (TimerQuestion ((ROUND_TIME - (now - now)) / ROUND_TIME * 100)%Q
                           (ROUND_TIME - (now - now))%Q))])
        (w_log w) true /\
  (outstanding_timers w = 1%nat ->
   outstanding_timers (handle (Chat t p text) w) = 1%nat).
Proof.
  intros Hq Ha Hs Hadm Hnx Hstk Hto Ht Hrs Hdraw now g r.
  match goal with |- ?A /\ _ => assert (Heq : A) end.
  {
    assert (Hna := not_admin p text Hadm). unfold andb in Hna.
    assert (Hlt := lookup_lt_Some _ _ _ Ht).
    subst now g r. py_open w.
    unfold has_streak in Hstk.
    py_run_in Hq; py_run_in Ha; py_run_in Hs; py_run_in Hto; py_run_in Hstk;
      py_run_in Ht; py_run_in Hrs; py_run_in Hdraw; py_run_in Hlt.
    subst. py_run.
    set (now' := if Qle_bool now t then t else now).
    eapply (handle_chat _ _ _ _ _ 3); [reflexivity| |lia| |reflexivity].
    { unfold run_chat, next_round, has_streak. py_run. rewrite Hna. py_run.
      rewrite Hnx, Hstk. rewrite bool_decide_true by discriminate. py_run.
      reflexivity. }
    fold now'.
    (* the cancellation *)
    erewrite run_ready_cons; [|py_run; reflexivity].
    unfold run_callback at 1. py_run.
    rewrite lookup_app_l, Ht by exact Hlt.
    py_run. rewrite insert_head by exact Hlt.
    (* start_new_round *)
    erewrite run_ready_cons; [|py_run; reflexivity].
    erewrite step_finishes; [|task_at|].
    2:{ unfold coro_step, bind. rewrite start_new_round_closed. py_run.
        rewrite Hdraw. unfold started. py_run. reflexivity. }
    task_set.
    (* the round timer *)
    erewrite run_ready_cons; [|py_run; reflexivity].
    erewrite step_sleeps; [|task_at|].
    2:{ unfold coro_step. py_run. reflexivity. }
    task_set.
    cbn [run_ready]. py_run. reflexivity.
  }
  split; [exact Heq|]. intros Hn. rewrite Heq.
  unfold outstanding_timers in *. cbn [w_tasks].
  rewrite (timers_replaced _ _ tid c d) by (try reflexivity; assumption).
  reflexivity.
Qed.

(** X16: [!start] while the game idles: the streak is reset and the first
    round is due in half of [WAIT_TIME]. *)
Theorem start_from_idle t p text w :
  w_ready w = [] ->
  w_chat_alive w = true ->
  state (w_game w) = STATE_IDLE ->
  RE_ADMIN text = None \/ p_permissions p <= 0 ->
  RE_START text = true ->
  let now := w_now (set_now t w) in
  let g := w_game w in
  handle (Chat t p text) w =
  World (Game STATE_WAITING now (Some (length (w_tasks w)))
              (timer_start g) (round_ g) (player_count g) (hints_ g)
              (Streak 0 None None) (Some now))
        now
        (w_tasks w ++ [Task delay_new_round_slept
                            (Sleeping (now + WAIT_TIME / 2)%Q)])
        [] (w_rounds w) (w_next_round_id w)
        (w_sent w ++ [SysNewRound (WAIT_TIME / 2)%Q])
        (w_log w) true /\
  outstanding_timers (handle (Chat t p text) w)
  = S (outstanding_timers w).
Proof.
  intros Hq Ha Hs Hadm Hst now g.
  match goal with |- ?A /\ _ => assert (Heq : A) end.
  {
    assert (Hna := not_admin p text Hadm). unfold andb in Hna.
    subst now g. py_open w.
    py_run_in Hq; py_run_in Ha; py_run_in Hs.
    subst. py_run.
    set (now' := if Qle_bool now t then t else now).
    eapply (handle_chat _ _ _ _ _ 1); [reflexivity| |lia| |reflexivity].
    { unfold run_chat. py_run. rewrite Hna. py_run. rewrite Hst. py_run.
      reflexivity. }
    fold now'.
    erewrite run_ready_cons; [|py_run; reflexivity].
    erewrite step_sleeps; [|py_run; apply list_lookup_middle; reflexivity|].
    2:{ unfold coro_step, delay_new_round. py_run. reflexivity. }
    py_run. rewrite insert_at_length.
    cbn [run_ready]. reflexivity.
  }
  split; [exact Heq|]. rewrite Heq. unfold outstanding_timers.
  cbn [w_tasks]. rewrite timers_added, Nat.add_comm. reflexivity.
Qed.






(** X26: two [!start] messages read back to back.  [run_chat] takes the
    second from its queue before the delay the first has started takes its
    first step, so the phase is still Idle and a second delay is started:
    two timers sleep until the same time, and the timeout handle names the
    second only. *)
Theorem starts_back_to_back t p text p' text' w :
  w_ready w = [] ->
  state (w_game w) = STATE_IDLE ->
  RE_ADMIN text = None \/ p_permissions p <= 0 ->
  RE_START text = true ->
  RE_ADMIN text' = None \/ p_permissions p' <= 0 ->
  RE_START text' = true ->
  let now := w_now (set_now t w) in
  let g := w_game w in
  let first := run_chat p text (set_now t w) in
  let second := run_chat p' text' first.2 in
  let timer := Task delay_new_round_slept (Sleeping (now + WAIT_TIME / 2)%Q) in
  first.1 = Ret tt /\
  second.1 = Ret tt /\
  run_ready (fuel_for second.2) second.2 =
  World (Game STATE_WAITING now (Some (length (w_tasks w) + 1)%nat)
              (timer_start g) (round_ g) (player_count g) (hints_ g)
              (Streak 0 None None) (Some now))
        now (w_tasks w ++ [timer; timer]) []
        (w_rounds w) (w_next_round_id w)
        (w_sent w ++ [SysNewRound (WAIT_TIME / 2)%Q;
                      SysNewRound (WAIT_TIME / 2)%Q])
        (w_log w) (w_chat_alive w) /\
  outstanding_timers (run_ready (fuel_for second.2) second.2)
  = S (S (outstanding_timers w)).
Proof.
  intros Hq Hs Hadm Hst Hadm' Hst' now g first second timer.
  assert (Hna := not_admin p text Hadm). unfold andb in Hna.
  assert (Hna' := not_admin p' text' Hadm'). unfold andb in Hna'.
  assert (H1 : first =
    (Ret tt,
     World (Game STATE_IDLE now (Some (length (w_tasks w)))
                 (timer_start g) (round_ g) (player_count g) (hints_ g)
                 (streak_ g) (round_start g))
           now (w_tasks w ++ [Task (delay_new_round_co true) Scheduled])
           [Step (length (w_tasks w))]
           (w_rounds w) (w_next_round_id w) (w_sent w) (w_log w)
           (w_chat_alive w))).
  { subst first now g. py_open w. py_run_in Hq; py_run_in Hs. subst.
    unfold run_chat. py_run. rewrite Hna. py_run. rewrite Hst. py_run.
    reflexivity. }
  assert (H2 : second =
    (Ret tt,
     World (Game STATE_IDLE now (Some (length (w_tasks w) + 1)%nat)
                 (timer_start g) (round_ g) (player_count g) (hints_ g)
                 (streak_ g) (round_start g))
           now (w_tasks w ++ [Task (delay_new_round_co true) Scheduled;
                              Task (delay_new_round_co true) Scheduled])
           [Step (length (w_tasks w)); Step (length (w_tasks w) + 1)%nat]
           (w_rounds w) (w_next_round_id w) (w_sent w) (w_log w)
           (w_chat_alive w))).
  { subst second. rewrite H1. cbn [snd]. subst now g. py_open w.
    unfold run_chat. py_run. rewrite Hna'. py_run. rewrite Hst'. py_run.
    rewrite length_app, <- app_assoc. reflexivity. }
  assert (Heq : run_ready (fuel_for second.2) second.2 =
    World (Game STATE_WAITING now (Some (length (w_tasks w) + 1)%nat)
              (timer_start g) (round_ g) (player_count g) (hints_ g)
              (Streak 0 None None) (Some now))
        now (w_tasks w ++ [timer; timer]) []
        (w_rounds w) (w_next_round_id w)
        (w_sent w ++ [SysNewRound (WAIT_TIME / 2)%Q;
                      SysNewRound (WAIT_TIME / 2)%Q])
        (w_log w) (w_chat_alive w)).
  { rewrite H2. cbn [snd].
    eapply (run_ready_enough 2); [lia| |reflexivity].
    subst timer now g. py_open w. py_run.
    set (now' := if Qle_bool now t then t else now).
    erewrite run_ready_cons; [|py_run; reflexivity].
    erewrite step_sleeps; [|py_run; apply list_lookup_middle; reflexivity|].
    2:{ unfold coro_step, delay_new_round. py_run. reflexivity. }
    py_run. rewrite insert_at_length.
    erewrite run_ready_cons; [|py_run; reflexivity].
    erewrite step_sleeps.
    2:{ py_run. rewrite (lookup_tail tasks _ (length tasks) 1) by reflexivity.
        reflexivity. }
    2:{ unfold coro_step, delay_new_round. py_run. reflexivity. }
    py_run. rewrite (insert_tail tasks _ (length tasks) 1) by reflexivity.
    cbn [run_ready insert list_insert]. rewrite <- app_assoc. reflexivity. }
  split; [rewrite H1; reflexivity|]. split; [rewrite H2; reflexivity|].
  split; [exact Heq|]. rewrite Heq. unfold outstanding_timers.
  cbn [w_tasks]. rewrite timers_added, Nat.add_comm. reflexivity.
Qed.

End Transitions.

(** ** Commands of an administrator *)

Section Admin.
Context `{Models}.

Lemma coro_step_alive c w :
  w_chat_alive (coro_step c w).2 = w_chat_alive w.
Proof.
  destruct c; unfold coro_step, bind.
  - rewrite round_solved_spec. cbv zeta.
    destruct (round_ (w_game w)); [|reflexivity].
    destruct (w_rounds w !! _); reflexivity.
  - py_open w. unfold round_end, broadcast_info. py_run.
    destruct (get_round_info _ _); reflexivity.
  - rewrite start_new_round_closed.
    destruct (round_start (w_game w)); [|reflexivity].
    destruct (draw_question _ _); [reflexivity|].
    destruct (draw_question _ _); reflexivity.
  - py_open w. unfold delay_new_round. destruct new_round; reflexivity.
  - py_open w. unfold delay_new_round_wake, stop_game, broadcast_info. py_run.
    destruct (if g_player_count <? 1 then _ else _); [|reflexivity].
    destruct g_timeout as [tid|].
    + rewrite bool_decide_true by discriminate. py_run.
      destruct (get_round_info _ _); reflexivity.
    + rewrite bool_decide_false by (intros Hf; apply Hf; reflexivity). py_run.
      destruct (get_round_info _ _); reflexivity.
  - reflexivity.
  - rewrite round_timeout_wake_spec.
    destruct (round_ (w_game w)); [|reflexivity].
    destruct (w_rounds w !! _); reflexivity.
Qed.

Lemma run_callback_alive cb w :
  w_chat_alive (run_callback cb w) = w_chat_alive w.
Proof.
  destruct cb as [tid|tid]; cbn.
  - destruct (w_tasks w !! tid) as [[c []]|]; try reflexivity.
    pose proof (coro_step_alive c w) as Hc.
    destruct (coro_step c w) as [[[[c' d]|]|e] w']; exact Hc.
  - destruct (w_tasks w !! tid) as [[c []]|]; reflexivity.
Qed.

Lemma run_ready_alive fuel w :
  w_chat_alive (run_ready fuel w) = w_chat_alive w.
Proof.
  revert w. induction fuel as [|fuel IH]; intros w; cbn; [reflexivity|].
  destruct (w_ready w) as [|cb rest]; [reflexivity|].
  rewrite IH, run_callback_alive. reflexivity.
Qed.

Lemma wake_due_alive w : w_chat_alive (wake_due w) = w_chat_alive w.
Proof.
  unfold wake_due. generalize (due_order (due_from 0 (w_now w) (w_tasks w))).
  intros l. revert w. induction l as [|tid l IH]; intros w; [reflexivity|].
  cbn [fold_left]. rewrite IH. unfold wake.
  destruct (w_tasks w !! tid) as [[c []]|]; reflexivity.
Qed.

(** Once the chat loop has ended it stays so. *)
Lemma handle_dead e w :
  w_chat_alive w = false -> w_chat_alive (handle e w) = false.
Proof.
  intros Hd. destruct e as [t p text|t|n]; unfold handle; cbv zeta.
  - change (w_chat_alive (set_now t w)) with (w_chat_alive w). rewrite Hd.
    exact Hd.
  - rewrite run_ready_alive, wake_due_alive. exact Hd.
  - exact Hd.
Qed.

(** X23: an administrator who names an attribute of the command object that is
    no command ends the chat loop: the call raises inside [run_chat], which
    catches nothing, and no chat message is read any more. *)
Theorem admin_attribute_ends_chat t p text cmd rest w :
  w_chat_alive w = true ->
  0 < p_permissions p ->
  RE_ADMIN text = Some (cmd, rest) ->
  cmd ∈ ["game"; "player_id"; "run"] ->
  has_perm (p_id p) cmd = true ->
  let w' := handle (Chat t p text) w in
  w_chat_alive w' = false /\
  (forall es, w_chat_alive (fold_left (fun w e => handle e w) es w') = false) /\
  (forall t' p' text', handle (Chat t' p' text') w' = set_now t' w').
Proof.
  intros Ha Hp Hre Hcmd Hperm w'.
  assert (Hd : w_chat_alive w' = false).
  { subst w'. unfold handle. cbv zeta.
    change (w_chat_alive (set_now t w)) with (w_chat_alive w). rewrite Ha.
    assert (Hr : exists w1, run_chat p text (set_now t w) = (Raise TypeError, w1)).
    { unfold run_chat, bind at 1, time. cbn [fst snd]. unfold bind at 1, update at 1.
      rewrite Hre. rewrite bool_decide_true by (eexists; reflexivity).
      replace (0 <? p_permissions p) with true by (symmetry; apply Z.ltb_lt; exact Hp).
      cbn [andb]. unfold admin_run, admin_hasattr.
      assert (Hin : bool_decide (cmd ∈ ["game"; "player_id"; "run"; "next";
                                         "stop"; "unlock"; "start"]) = true).
      { apply bool_decide_eq_true. rewrite !elem_of_cons in Hcmd.
        rewrite !elem_of_cons. tauto. }
      rewrite Hin, Hperm. cbn [orb]. unfold admin_getattr_call.
      rewrite !elem_of_cons in Hcmd.
      destruct Hcmd as [->|[->|[->|Hf]]]; [| | |inversion Hf].
      all: eexists; reflexivity. }
    destruct Hr as [w1 ->]. rewrite run_ready_alive. reflexivity. }
  split; [exact Hd|]. split.
  - intros es. generalize dependent w'. induction es as [|e es IH]; intros w' Hd.
    + exact Hd.
    + cbn [fold_left]. apply IH, handle_dead, Hd.
  - intros t' p' text'. unfold handle. cbv zeta.
    change (w_chat_alive (set_now t' w')) with (w_chat_alive w'). rewrite Hd.
    reflexivity.
Qed.


(** X24: [!a stop] from an administrator with access to it: the pending timer
    is cancelled and the game stops; with the word [lock] among the
    arguments it is locked. *)
Theorem admin_stop_cancels t p text rest tid c d w :
  w_ready w = [] ->
  w_chat_alive w = true ->
  0 < p_permissions p ->
  RE_ADMIN text = Some ("stop", rest) ->
  has_perm (p_id p) "stop" = true ->
  timeout (w_game w) = Some tid ->
  w_tasks w !! tid = Some (Task c (Sleeping d)) ->
  round_ (w_game w) = None \/ is_Some (timer_start (w_game w)) ->
  let now := w_now (set_now t w) in
  let lock := bool_decide ("lock" ∈ split_ws rest) in
  handle (Chat t p text) w =
  World (set_state (if lock then STATE_LOCKED else STATE_IDLE)
           (set_last_action now (w_game w)))
        now (<[tid := Task c Cancelled]> (w_tasks w)) []
        (w_rounds w) (w_next_round_id w)
        (w_sent w ++
         [SysStopped "Stopped by administrator.";
          SetInfo (RoundInfo (if lock then ViewLocked else ViewIdle)
                             TimerNone)])
        (w_log w ++ [LogExecuted (p_id p) "stop" (split_ws rest)])
        true /\
  (outstanding_timers w = 1%nat ->
   outstanding_timers (handle (Chat t p text) w) = 0%nat).
Proof.
  intros Hq Ha Hp Hre Hperm Hto Ht Hr now lock.
  match goal with |- ?A /\ _ => assert (Heq : A) end.
  { assert (Hlt := lookup_lt_Some _ _ _ Ht).
    subst now lock. py_open w.
    py_run_in Hq; py_run_in Ha; py_run_in Hto; py_run_in Ht; py_run_in Hr;
      py_run_in Hlt.
    subst. py_run.
    set (now' := if Qle_bool now t then t else now).
    remember (bool_decide ("lock" ∈ split_ws rest)) as lock eqn:Hl.
    assert (Hinfo : get_round_info now'
              (Game (if lock then STATE_LOCKED else STATE_IDLE) now'
                    (Some tid) g_timer_start g_round g_player_count g_hints
                    g_streak g_round_start)
            = Ret (RoundInfo (if lock then ViewLocked else ViewIdle)
                             TimerNone)).
    { unfold get_round_info. cbn.
      destruct Hr as [->|[t0 ->]]; [destruct lock; reflexivity|].
      destruct g_round, lock; reflexivity. }
    destruct lock.
    all: eapply (handle_chat _ _ _ _ _ 1); [reflexivity| |lia| |reflexivity].
    all: try fold now'.
    1,3: unfold run_chat, bind at 1, time; cbn [fst snd];
      unfold bind at 1, update at 1; cbn [fst snd];
      rewrite Hre; rewrite bool_decide_true by (eexists; reflexivity);
      replace (0 <? p_permissions p) with true
        by (symmetry; apply Z.ltb_lt; exact Hp);
      cbn [andb]; unfold admin_run, admin_hasattr;
      rewrite bool_decide_true by (rewrite !elem_of_cons; auto 8);
      cbn [orb p_id]; rewrite Hperm; unfold admin_getattr_call;
      rewrite (bool_decide_false ("stop" = "next")) by discriminate;
      rewrite (bool_decide_true ("stop" = "stop")) by reflexivity;
      unfold admin_stop, stop_game, broadcast_info; rewrite <- Hl; py_run;
      fold now'; rewrite bool_decide_true by discriminate; py_run;
      rewrite Hinfo; reflexivity.
    all: erewrite run_ready_cons; [|py_run; reflexivity].
    all: unfold run_callback; py_run; rewrite Ht; py_run.
    all: cbn [run_ready]; rewrite <- app_assoc; reflexivity. }
  split; [exact Heq|]. intros Hn. rewrite Heq.
  unfold outstanding_timers in *. cbn [w_tasks].
  rewrite <- (app_nil_r (<[tid := _]> (w_tasks w))).
  rewrite (timers_replaced _ _ tid c d) by (try reflexivity; assumption).
  reflexivity.
Qed.

End Admin.

(** ** One timer at a time *)

Section Timers.
Context `{Models}.

Lemma coro_step_starter c w :
  timer_coro c = false ->
  effect w (coro_step c w).2 /\
  forall x, (coro_step c w).1 <> Ret (Some x).
Proof.
  intros Hc. py_world w. destruct c; try discriminate Hc; py_unfold.
  all: py_cases; (split; [effect_solve | intros x Hx; discriminate Hx]).
Qed.

Lemma coro_step_timer c w :
  timer_coro c = true ->
  exists c' d w',
    coro_step c w = (Ret (Some (c', d)), w') /\
    timer_coro c' = false /\
    w_tasks w' = w_tasks w /\ w_ready w' = w_ready w /\
    timeout (w_game w') = timeout (w_game w) /\
    (state (w_game w') = state (w_game w) /\ c = round_timeout_co \/
     state (w_game w') = STATE_WAITING).
Proof.
  intros Hc. py_world w. destruct c; try discriminate Hc; py_unfold.
  - destruct new_round; py_simpl; do 3 eexists; repeat split; auto.
  - py_simpl. do 3 eexists; repeat split; auto.
Qed.

Lemma run_chat_plain p text w :
  RE_ADMIN text = None \/ p_permissions p <= 0 ->
  chat_effect w (run_chat p text w).2.
Proof.
  intros Hadm. apply not_admin in Hadm.
  py_world w. py_unfold. py_simpl. rewrite Hadm.
  py_cases; try (exfalso; to_props; congruence); chat_effect_solve.
Qed.


(** ** The discipline on lists *)

Lemma live_in_mono ts ts' rd rd' j :
  live_in ts' rd' j ->
  (forall t, ts' !! j = Some t -> timerlike t = true ->
             exists t0, ts !! j = Some t0 /\ timerlike t0 = true) ->
  (Cancel j ∈ rd -> Cancel j ∈ rd') ->
  live_in ts rd j.
Proof.
  intros (t & Hl & Ht & Hn) Hts Hrd.
  destruct (Hts t Hl Ht) as (t0 & Hl0 & Ht0).
  exists t0. repeat split; auto.
Qed.

Lemma tidy_calm st to ts rd :
  (forall i c, ts !! i <> Some (Task c Scheduled)) ->
  (forall i c d, ts !! i = Some (Task c (Sleeping d)) -> timer_coro c = false) ->
  (forall i, ~ live_in ts rd i) ->
  tidy_of st to ts rd.
Proof.
  intros Hs Hz Hl. split.
  - intros i c Hi. destruct (Hs _ _ Hi).
  - intros i j c c' Hi. destruct (Hs _ _ Hi).
  - exact Hz.
  - intros i Hi. destruct (Hl _ Hi).
  - intros i c Hi. destruct (Hs _ _ Hi).
  - intros _ i Hi. destruct (Hl _ Hi).
Qed.

(** A step of a task that is not on its way does nothing. *)
Lemma tidy_pop_noop st to ts i rest :
  tidy_of st to ts (Step i :: rest) ->
  (forall c, ts !! i <> Some (Task c Scheduled)) ->
  tidy_of st to ts rest.
Proof.
  intros [K0 K4 K5 K1 K2 K3] Hi.
  assert (Hlive : forall j, live_in ts rest j -> live_in ts (Step i :: rest) j).
  { intros j Hj. eapply live_in_mono; [exact Hj|eauto|].
    rewrite elem_of_cons. intros [Hx|Hx]; [discriminate|exact Hx]. }
  split; auto.
  - intros j c Hj. specialize (K0 _ _ Hj). apply elem_of_cons in K0.
    destruct K0 as [Heq|Hin]; [|exact Hin].
    injection Heq as ->. destruct (Hi _ Hj).
  - intros j c Hj Hc k Hk. exact (K2 _ _ Hj Hc k (Hlive _ Hk)).
Qed.

(** A timer goes to sleep. *)
Lemma tidy_sleep st st' to ts i rest c c' d :
  tidy_of st to ts (Step i :: rest) ->
  ts !! i = Some (Task c Scheduled) ->
  timer_coro c = true -> timer_coro c' = false ->
  (st' = st /\ c = round_timeout_co \/ st' = STATE_WAITING) ->
  tidy_of st' to (<[i := Task c' (Sleeping d)]> ts) rest.
Proof.
  intros [K0 K4 K5 K1 K2 K3] Hi Hc Hc' Hst.
  assert (Hlive : forall j, live_in (<[i := Task c' (Sleeping d)]> ts) rest j ->
                            live_in ts (Step i :: rest) j).
  { intros j Hj. eapply live_in_mono; [exact Hj| |].
    - intros t Ht Htl. look; eauto.
    - rewrite elem_of_cons. intros [Hx|Hx]; [discriminate|exact Hx]. }
  split.
  - intros j c0 Hj. look. pose proof (K4 _ _ _ _ Hi Hj). congruence.
  - intros j k c0 c1 Hj. look. pose proof (K4 _ _ _ _ Hi Hj). congruence.
  - intros j c0 d0 Hj. look; eauto.
  - intros j Hj. apply K1, Hlive, Hj.
  - intros j c0 Hj. look. pose proof (K4 _ _ _ _ Hi Hj). congruence.
  - intros Hidle j Hj.
    destruct Hst as [[-> ->] | ->]; [|destruct Hidle; discriminate].
    pose proof (K3 Hidle _ (Hlive _ Hj)) as Hd.
    pose proof (K4 _ _ _ _ Hi Hd) as <-. congruence.
Qed.

(** A coroutine that is no timer has come to its end.  Whatever it has
    queued to cancel, no timer is left. *)
Lemma tidy_done st st' to to' ts i rest rd' c x :
  tidy_of st to ts (Step i :: rest) ->
  ts !! i = Some (Task c Scheduled) ->
  timer_coro c = false ->
  timerlike (Task c x) = false -> x <> Scheduled ->
  (forall cb, cb ∈ rest -> cb ∈ rd') ->
  tidy_of st' to' (<[i := Task c x]> ts) rd'.
Proof.
  intros [K0 K4 K5 K1 K2 K3] Hi Hc Hx Hx' Hrd.
  apply tidy_calm.
  - intros j c0 Hj. look. pose proof (K4 _ _ _ _ Hi Hj). congruence.
  - intros j c0 d0 Hj. look; look_done.
  - intros j Hj. apply (K2 _ _ Hi Hc j).
    eapply live_in_mono; [exact Hj| |].
    + intros t Ht Htl. look; look_done.
    + rewrite elem_of_cons. intros [Hy|Hy]; [discriminate|auto].
Qed.

(** It has started another coroutine that is no timer. *)
Lemma tidy_done_spawn st st' to ts i rest c c2 x :
  tidy_of st to ts (Step i :: rest) ->
  ts !! i = Some (Task c Scheduled) ->
  timer_coro c = false ->
  timerlike (Task c x) = false -> x <> Scheduled ->
  timer_coro c2 = false ->
  tidy_of st' to (<[i := Task c x]> (ts ++ [Task c2 Scheduled])%list)
          (rest ++ [Step (length ts)])%list.
Proof.
  intros [K0 K4 K5 K1 K2 K3] Hi Hc Hx Hx' Hc2.
  assert (Hlt := lookup_lt_Some _ _ _ Hi).
  assert (Hnone : forall j, ~ live_in (<[i := Task c x]> (ts ++ [Task c2 Scheduled])%list)
                              (rest ++ [Step (length ts)])%list j).
  { intros j Hj. apply (K2 _ _ Hi Hc j).
    eapply live_in_mono; [exact Hj| |].
    - intros t Ht Htl. look; look_done.
    - rewrite elem_of_cons, elem_of_app. intros [Hy|Hy]; [discriminate|auto]. }
  assert (Hsched : forall j c0,
             <[i := Task c x]> (ts ++ [Task c2 Scheduled])%list !! j
             = Some (Task c0 Scheduled) -> j = length ts /\ c0 = c2).
  { intros j c0 Hj. look.
    - pose proof (K4 _ _ _ _ Hi Hj). congruence.
    - split; [lia|reflexivity]. }
  split.
  - intros j c0 Hj. destruct (Hsched _ _ Hj) as [-> ->].
    rewrite elem_of_app, list_elem_of_singleton. auto.
  - intros j k c0 c1 Hj Hk.
    destruct (Hsched _ _ Hj) as [-> _]. destruct (Hsched _ _ Hk) as [-> _].
    reflexivity.
  - intros j c0 d0 Hj. look. eauto.
  - intros j Hj. destruct (Hnone _ Hj).
  - intros j c0 Hj _ k Hk. destruct (Hnone _ Hk).
  - intros _ j Hj. destruct (Hnone _ Hj).
Qed.

(** It has started a timer and made it the timeout handle. *)
Lemma tidy_done_timer st st' to ts i rest c c2 x :
  tidy_of st to ts (Step i :: rest) ->
  ts !! i = Some (Task c Scheduled) ->
  timer_coro c = false ->
  timerlike (Task c x) = false -> x <> Scheduled ->
  timer_coro c2 = true ->
  ~ idle_phase st' ->
  tidy_of st' (Some (length ts))
          (<[i := Task c x]> (ts ++ [Task c2 Scheduled])%list)
          (rest ++ [Step (length ts)])%list.
Proof.
  intros [K0 K4 K5 K1 K2 K3] Hi Hc Hx Hx' Hc2 Hst.
  assert (Hlt := lookup_lt_Some _ _ _ Hi).
  assert (Honly : forall j, live_in (<[i := Task c x]> (ts ++ [Task c2 Scheduled])%list)
                              (rest ++ [Step (length ts)])%list j -> j = length ts).
  { intros j Hj.
    destruct (decide (j = length ts)) as [|Hne]; [assumption|].
    destruct (K2 _ _ Hi Hc j).
    eapply live_in_mono; [exact Hj| |].
    - intros t Ht Htl. look; look_done.
    - rewrite elem_of_cons, elem_of_app. intros [Hy|Hy]; [discriminate|auto]. }
  assert (Hsched : forall j c0,
             <[i := Task c x]> (ts ++ [Task c2 Scheduled])%list !! j
             = Some (Task c0 Scheduled) -> j = length ts /\ c0 = c2).
  { intros j c0 Hj. look.
    - pose proof (K4 _ _ _ _ Hi Hj). congruence.
    - split; [lia|reflexivity]. }
  split.
  - intros j c0 Hj. destruct (Hsched _ _ Hj) as [-> ->].
    rewrite elem_of_app, list_elem_of_singleton. auto.
  - intros j k c0 c1 Hj Hk.
    destruct (Hsched _ _ Hj) as [-> _]. destruct (Hsched _ _ Hk) as [-> _].
    reflexivity.
  - intros j c0 d0 Hj. look. eauto.
  - intros j Hj. rewrite (Honly _ Hj). reflexivity.
  - intros j c0 Hj Hc0. destruct (Hsched _ _ Hj) as [-> ->]. congruence.
  - intros Hidle. destruct (Hst Hidle).
Qed.

(** A cancellation is carried out. *)
Lemma tidy_cancel st to ts j rest :
  tidy_of st to ts (Cancel j :: rest) ->
  tidy_of st to
    match ts !! j with
    | Some (Task c Scheduled) | Some (Task c (Sleeping _)) =>
      <[j := Task c Cancelled]> ts
    | _ => ts
    end rest.
Proof.
  intros [K0 K4 K5 K1 K2 K3].
  set (ts' := match ts !! j with
              | Some (Task c Scheduled) | Some (Task c (Sleeping _)) =>
                <[j := Task c Cancelled]> ts
              | _ => ts
              end).
  assert (Hsame : forall k t, ts' !! k = Some t ->
                    t_status t = Scheduled \/ timerlike t = true ->
                    k <> j /\ ts !! k = Some t).
  { intros k t Hk Ht. subst ts'.
    destruct (ts !! j) as [[c0 s0]|] eqn:Hj.
    - destruct s0.
      1,2: look;
        [cbn in Ht; destruct Ht as [Ht|Ht]; discriminate Ht
        |split; [congruence|assumption]].
      all: split; [|assumption]; intros ->; rewrite Hj in Hk;
        injection Hk as <-; cbn in Ht; destruct Ht as [Ht|Ht];
        discriminate Ht.
    - split; [|assumption]. intros ->. congruence. }
  assert (Hlive : forall k, live_in ts' rest k ->
                    live_in ts (Cancel j :: rest) k /\ ts' !! k = ts !! k).
  { intros k (t & Hk & Ht & Hn).
    destruct (Hsame k t Hk (or_intror Ht)) as [Hne Hk'].
    split; [|congruence]. exists t. repeat split; auto.
    rewrite elem_of_cons. intros [Heq|Hin]; [congruence|auto]. }
  split.
  - intros k c Hk. destruct (Hsame _ _ Hk (or_introl eq_refl)) as [_ Hk'].
    specialize (K0 _ _ Hk'). apply elem_of_cons in K0.
    destruct K0 as [Heq|Hin]; [discriminate|exact Hin].
  - intros k l c c' Hk Hl.
    destruct (Hsame _ _ Hk (or_introl eq_refl)) as [_ Hk'].
    destruct (Hsame _ _ Hl (or_introl eq_refl)) as [_ Hl'].
    eauto.
  - intros k c d Hk.
    destruct (Hsame _ _ Hk (or_intror eq_refl)) as [_ Hk']. eauto.
  - intros k Hk. apply K1, Hlive, Hk.
  - intros k c Hk Hc l Hl.
    destruct (Hsame _ _ Hk (or_introl eq_refl)) as [_ Hk'].
    exact (K2 _ _ Hk' Hc l (proj1 (Hlive _ Hl))).
  - intros Hidle k Hk. destruct (Hlive _ Hk) as [Hk1 Hk2].
    rewrite Hk2. apply K3; assumption.
Qed.

Lemma tidy_no_scheduled st to ts :
  tidy_of st to ts [] -> forall i c, ts !! i <> Some (Task c Scheduled).
Proof.
  intros [K0 _ _ _ _ _] i c Hi. specialize (K0 _ _ Hi). inversion K0.
Qed.

(** A chat message cancels the timer and starts a coroutine that is no
    timer. *)
Lemma tidy_chat_swap st to ts c tid :
  tidy_of st to ts [] ->
  to = Some tid ->
  timer_coro c = false ->
  tidy_of st to (ts ++ [Task c Scheduled])%list
          [Cancel tid; Step (length ts)].
Proof.
  intros Ht Hto Hc. pose proof (tidy_no_scheduled _ _ _ Ht) as Hns.
  destruct Ht as [K0 K4 K5 K1 K2 K3].
  assert (Hnone : forall j, ~ live_in (ts ++ [Task c Scheduled])
                              [Cancel tid; Step (length ts)] j).
  { intros j (t & Hj & Htl & Hn). look.
    - assert (Hl : live_in ts [] j).
      { exists t. repeat split; auto. intros Hin. inversion Hin. }
      apply K1 in Hl. assert (j = tid) by congruence. subst j.
      apply Hn. left.
    - cbn in Htl. congruence. }
  assert (Hsched : forall j c0,
             (ts ++ [Task c Scheduled])%list !! j = Some (Task c0 Scheduled) ->
             j = length ts /\ c0 = c).
  { intros j c0 Hj. look.
    - destruct (Hns _ _ Hj).
    - split; [lia|reflexivity]. }
  split.
  - intros j c0 Hj. destruct (Hsched _ _ Hj) as [-> ->].
    right. left.
  - intros j k c0 c1 Hj Hk.
    destruct (Hsched _ _ Hj) as [-> _]. destruct (Hsched _ _ Hk) as [-> _].
    reflexivity.
  - intros j c0 d0 Hj. look. eauto.
  - intros j Hj. destruct (Hnone _ Hj).
  - intros j c0 Hj _ k Hk. destruct (Hnone _ Hk).
  - intros _ j Hj. destruct (Hnone _ Hj).
Qed.

(** [!start] while the game idles sets the one timer. *)
Lemma tidy_chat_start st to ts :
  tidy_of st to ts [] ->
  idle_phase st ->
  tidy_of st (Some (length ts))
          (ts ++ [Task (delay_new_round_co true) Scheduled])%list
          [Step (length ts)].
Proof.
  intros Ht Hidle. pose proof (tidy_no_scheduled _ _ _ Ht) as Hns.
  destruct Ht as [K0 K4 K5 K1 K2 K3].
  assert (Honly : forall j, live_in (ts ++ [Task (delay_new_round_co true) Scheduled])
                              [Step (length ts)] j -> j = length ts).
  { intros j (t & Hj & Htl & Hn). look; [|lia].
    assert (Hl : live_in ts [] j).
    { exists t. repeat split; auto. intros Hin. inversion Hin. }
    apply (K3 Hidle) in Hl. destruct (Hns _ _ Hl). }
  assert (Hsched : forall j c0,
             (ts ++ [Task (delay_new_round_co true) Scheduled])%list !! j
             = Some (Task c0 Scheduled) ->
             j = length ts /\ c0 = delay_new_round_co true).
  { intros j c0 Hj. look.
    - destruct (Hns _ _ Hj).
    - split; [lia|reflexivity]. }
  split.
  - intros j c0 Hj. destruct (Hsched _ _ Hj) as [-> ->]. left.
  - intros j k c0 c1 Hj Hk.
    destruct (Hsched _ _ Hj) as [-> _]. destruct (Hsched _ _ Hk) as [-> _].
    reflexivity.
  - intros j c0 d0 Hj. look. eauto.
  - intros j Hj. rewrite (Honly _ Hj). reflexivity.
  - intros j c0 Hj Hc0. destruct (Hsched _ _ Hj) as [-> ->]. discriminate.
  - intros _ j Hj. rewrite (Honly _ Hj).
    apply list_lookup_middle. reflexivity.
Qed.

(** The timer wakes. *)
Lemma tidy_wake st to ts tid c d :
  tidy_of st to ts [] ->
  ts !! tid = Some (Task c (Sleeping d)) ->
  tidy_of st to (<[tid := Task c Scheduled]> ts) [Step tid].
Proof.
  intros Ht Htid. pose proof (tidy_no_scheduled _ _ _ Ht) as Hns.
  destruct Ht as [K0 K4 K5 K1 K2 K3].
  assert (Hc : timer_coro c = false) by eauto.
  assert (Hto : to = Some tid).
  { apply K1. exists (Task c (Sleeping d)). repeat split; auto.
    intros Hin. inversion Hin. }
  assert (Hnone : forall j, ~ live_in (<[tid := Task c Scheduled]> ts)
                              [Step tid] j).
  { intros j (t & Hj & Htl & Hn). look.
    - cbn in Htl. congruence.
    - assert (Hl : live_in ts [] j).
      { exists t. repeat split; auto. intros Hin. inversion Hin. }
      apply K1 in Hl. congruence. }
  assert (Hsched : forall j c0,
             <[tid := Task c Scheduled]> ts !! j = Some (Task c0 Scheduled) ->
             j = tid /\ c0 = c).
  { intros j c0 Hj. look; [auto|]. destruct (Hns _ _ Hj). }
  split.
  - intros j c0 Hj. destruct (Hsched _ _ Hj) as [-> ->]. left.
  - intros j k c0 c1 Hj Hk.
    destruct (Hsched _ _ Hj) as [-> _]. destruct (Hsched _ _ Hk) as [-> _].
    reflexivity.
  - intros j c0 d0 Hj. look. eauto.
  - intros j Hj. destruct (Hnone _ Hj).
  - intros j c0 Hj _ k Hk. destruct (Hnone _ Hk).
  - intros _ j Hj. destruct (Hnone _ Hj).
Qed.

(** Between two events there is one timer at most. *)
Lemma tidy_sleepers st to ts :
  tidy_of st to ts [] ->
  Forall (fun t => is_sleeping t = false) ts \/
  exists tid c d,
    ts !! tid = Some (Task c (Sleeping d)) /\
    length (filter (fun t => is_sleeping t = true) ts) = 1%nat.
Proof.
  intros [K0 K4 K5 K1 K2 K3].
  assert (Huniq : forall i j t t',
             ts !! i = Some t -> is_sleeping t = true ->
             ts !! j = Some t' -> is_sleeping t' = true -> i = j).
  { intros i j t t' Hi Hsi Hj Hsj.
    assert (Hl : forall k u, ts !! k = Some u -> is_sleeping u = true ->
                             to = Some k).
    { intros k [cu su] Hk Hs. apply K1. exists (Task cu su).
      repeat split; auto.
      - destruct su; try discriminate. reflexivity.
      - intros Hin. inversion Hin. }
    pose proof (Hl _ _ Hi Hsi). pose proof (Hl _ _ Hj Hsj). congruence. }
  destruct (decide (Forall (fun t => is_sleeping t = false) ts)) as [Hf|Hf];
    [left; exact Hf|right].
  apply not_Forall_Exists in Hf; [|intros x; apply _].
  apply Exists_exists in Hf. destruct Hf as ([c st0] & Hin & Hs).
  apply list_elem_of_lookup in Hin. destruct Hin as [tid Htid].
  assert (Hs' : is_sleeping (Task c st0) = true)
    by (apply not_false_is_true; exact Hs).
  destruct st0 as [|d| | |]; try discriminate Hs'.
  exists tid, c, d. split; [exact Htid|].
  assert (Hz : forall l : list task,
             Forall (fun t => is_sleeping t = false) l ->
             filter (fun t => is_sleeping t = true) l = []).
  { intros l Hl. induction Hl as [|y l Hy Hl IH]; [reflexivity|].
    rewrite filter_cons_False by congruence. exact IH. }
  rewrite <- (take_drop_middle ts tid _ Htid).
  rewrite filter_app, filter_cons_True by reflexivity.
  rewrite !Hz; [reflexivity| |].
  - apply Forall_lookup. intros k x Hk. rewrite lookup_drop in Hk.
    destruct (is_sleeping x) eqn:Hx; [|reflexivity].
    pose proof (Huniq _ _ _ _ Hk Hx Htid Hs'). lia.
  - apply Forall_lookup. intros k x Hk.
    apply lookup_take_Some in Hk. destruct Hk as [Hk Hlt].
    destruct (is_sleeping x) eqn:Hx; [|reflexivity].
    pose proof (Huniq _ _ _ _ Hk Hx Htid Hs'). lia.
Qed.


(** ** The discipline on worlds *)

Lemma tidy_callback cb rest w :
  tidy w -> w_ready w = cb :: rest ->
  tidy (run_callback cb (set_ready rest w)).
Proof.
  unfold tidy. intros Ht Hr. rewrite Hr in Ht.
  destruct cb as [i|j]; unfold run_callback; cbn [set_ready w_tasks].
  - destruct (w_tasks w !! i) as [[c s]|] eqn:Hi.
    2:{ cbn. eapply tidy_pop_noop; [exact Ht|]. intros c. congruence. }
    destruct s.
    2-5: cbn; (eapply tidy_pop_noop; [exact Ht|]); intros c0; congruence.
    destruct (timer_coro c) eqn:Hc.
    + destruct (coro_step_timer c (set_ready rest w) Hc)
        as (c' & d & w' & Hstep & Hc' & Hts & Hrd & Hto & Hst).
      rewrite Hstep. unfold set_task, set_tasks. cbn in *.
      rewrite Hts, Hrd, Hto.
      eapply tidy_sleep; eauto.
    + destruct (coro_step_starter c (set_ready rest w) Hc) as [Heff Hno].
      destruct (coro_step c (set_ready rest w)) as [[[x|]|e] w'];
        [destruct (Hno x eq_refl)| |].
      all: cbn [snd] in Heff; unfold set_task, set_tasks; cbn in *.
      all: destruct Heff as [Hts Hrd Hto|c2 Hc2 Hts Hrd Hto
                            |c2 Hc2 Hts Hrd Hto Hst|tid Hts Hto0 Hrd Hto];
        rewrite Hts, Hrd, Hto.
      all: first
        [ eapply tidy_done; eauto; try discriminate;
          intros cb; rewrite ?elem_of_app; auto
        | eapply tidy_done_spawn; eauto; discriminate
        | eapply tidy_done_timer; eauto; discriminate ].
  - cbn. apply tidy_cancel in Ht.
    destruct (w_tasks w !! j) as [[c []]|]; exact Ht.
Qed.

Lemma run_ready_tidy fuel w : tidy w -> tidy (run_ready fuel w).
Proof.
  revert w. induction fuel as [|fuel IH]; intros w Ht; cbn; [exact Ht|].
  destruct (w_ready w) as [|cb rest] eqn:Hr; [exact Ht|].
  apply IH, tidy_callback; assumption.
Qed.

Lemma wake_due_tidy w :
  tidy w -> w_ready w = [] -> tidy (wake_due w).
Proof.
  unfold tidy. intros Ht Hr. rewrite Hr in Ht. unfold wake_due.
  destruct (tidy_sleepers _ _ _ Ht) as [Hf|(tid & c & d & Htid & Hn)].
  - rewrite due_from_none by exact Hf. cbn. rewrite Hr. exact Ht.
  - rewrite (due_single _ _ tid c d Htid Hn).
    destruct (Qle_bool d (w_now w)); cbn [fold_left]; [|rewrite Hr; exact Ht].
    unfold wake. rewrite Htid. cbn. rewrite Hr. cbn.
    eapply tidy_wake; eauto.
Qed.

Lemma init_world_tidy t0 : tidy (init_world t0).
Proof.
  apply tidy_calm.
  - intros i c Hi. cbn in Hi. rewrite lookup_nil in Hi. discriminate.
  - intros i c d Hi. cbn in Hi. rewrite lookup_nil in Hi. discriminate.
  - intros i (t & Hi & _). cbn in Hi. rewrite lookup_nil in Hi. discriminate.
Qed.

(** An event that is no command of an administrator keeps the timers in
    order. *)
Lemma handle_tidy e w :
  plain e -> tidy w -> w_ready w = [] -> tidy (handle e w).
Proof.
  intros Hp Ht Hr. destruct e as [t p text|t|n]; unfold handle; cbv zeta.
  - change (w_chat_alive (set_now t w)) with (w_chat_alive w).
    destruct (w_chat_alive w); [|exact Ht].
    apply run_ready_tidy.
    pose proof (run_chat_plain p text (set_now t w) Hp) as Heff.
    destruct (run_chat p text (set_now t w)) as [res w'].
    assert (Ht' : tidy w').
    { unfold tidy in *. rewrite Hr in Ht. cbn [snd] in Heff.
      destruct Heff as [Hts Hrd Hto Hst|c tid Hc Hto0 Hts Hrd Hto Hst
                       |Hidle Hts Hrd Hto Hst];
        rewrite Hts, Hrd, Hto, Hst; cbn [set_now w_game w_tasks w_ready] in *;
        rewrite ?Hr; cbn [app].
      - exact Ht.
      - apply tidy_chat_swap; auto.
      - eapply tidy_chat_start; eauto. }
    destruct res as [[]|e]; exact Ht'.
  - apply run_ready_tidy, wake_due_tidy; [exact Ht|exact Hr].
  - exact Ht.
Qed.

Lemma run_plain_tidy es w :
  Forall plain es -> tidy w -> w_ready w = [] ->
  tidy (fold_left (fun w e => handle e w) es w) /\
  w_ready (fold_left (fun w e => handle e w) es w) = [].
Proof.
  intros Hes. revert w. induction Hes as [|e es He Hes IH]; intros w Ht Hr.
  - split; assumption.
  - cbn [fold_left]. apply IH.
    + apply handle_tidy; assumption.
    + apply handle_quiescent. exact Hr.
Qed.

(** X25: when every chat message and every tick is handled to the end
    before the next chat message is read (the queue of [run_chat] never
    holds two messages), and no command of an administrator is among
    them, the game never has two timers running: one timer at most is
    outstanding after every event, and none while the game idles.  A
    message read before the tasks of the one before have run is another
    matter, as two [!start] messages read back to back show. *)
Theorem one_timer_one_event_at_a_time t0 es :
  Forall plain es ->
  (outstanding_timers (run_events t0 es) <= 1)%nat /\
  (state (w_game (run_events t0 es)) = STATE_IDLE ->
   outstanding_timers (run_events t0 es) = 0%nat).
Proof.
  intros Hes. unfold run_events.
  destruct (run_plain_tidy es (init_world t0) Hes (init_world_tidy t0) eq_refl)
    as [Ht Hr].
  unfold tidy in Ht. rewrite Hr in Ht. unfold outstanding_timers.
  destruct (tidy_sleepers _ _ _ Ht) as [Hf|(tid & c & d & Htid & Hn)].
  - assert (Hz : filter (fun t => is_sleeping t = true)
                   (w_tasks (fold_left (fun w e => handle e w) es (init_world t0)))
                 = []).
    { clear Ht. induction Hf as [|y l Hy Hl IH]; [reflexivity|].
      rewrite filter_cons_False by congruence. exact IH. }
    rewrite Hz. cbn. split; [lia|reflexivity].
  - rewrite Hn. split; [lia|]. intros Hidle. exfalso.
    pose proof (tidy_no_scheduled _ _ _ Ht) as Hns.
    destruct Ht as [_ _ _ _ _ K3].
    apply (Hns tid (delay_new_round_co true)).
    apply K3; [left; exact Hidle|].
    exists (Task c (Sleeping d)). repeat split; auto.
    intros Hin. inversion Hin.
Qed.

End Timers.

(** ** The demo game, event by event *)

Lemma start_from_idle_witness :
  state (w_game (handle (Chat 1 bob "!start") lobby)) = STATE_WAITING /\
  outstanding_timers (handle (Chat 1 bob "!start") lobby) = 1%nat.
Proof.
  pose proof (start_from_idle 1 bob "!start" lobby) as Hx. cbv zeta in Hx.
  destruct Hx as [Heq Hn]; [by_run ..|].
  split; [rewrite Heq; reflexivity|]. rewrite Hn. vm_compute. reflexivity.
Defined.

Lemma next_round_starts_witness :
  state (w_game (handle (Tick 5) starting)) = STATE_QUESTION /\
  outstanding_timers (handle (Tick 5) starting) = 1%nat.
Proof.
  pose proof (next_round_starts 5 0 (10 # 2) 0 the_question starting) as Hx.
  cbv zeta in Hx. destruct Hx as [Heq Hn]; [by_run ..|].
  split; [rewrite Heq; reflexivity|exact Hn].
Defined.

Lemma inactivity_stops_witness :
  state (w_game (handle (Tick 5) left_alone)) = STATE_IDLE /\
  outstanding_timers (handle (Tick 5) left_alone) = 0%nat.
Proof.
  pose proof (inactivity_stops 5 0 (10 # 2) left_alone) as Hx.
  destruct Hx as [Heq Hn]; [by_run ..|].
  split; [rewrite Heq; reflexivity|exact Hn].
Defined.

Lemma answer_solves_witness :
  state (w_game (handle (Chat 15 bob "paris") asking)) = STATE_WAITING /\
  outstanding_timers (handle (Chat 15 bob "paris") asking) = 1%nat.
Proof.
  pose proof (answer_solves 15 bob "paris" 2 round_timeout_slept 50
                first_round first_round asking) as Hx.
  cbv zeta in Hx. destruct Hx as [Heq Hn]; [by_run ..|].
  split; [rewrite Heq; reflexivity|]. apply Hn. vm_compute. reflexivity.
Defined.

Lemma round_timer_fires_witness :
  state (w_game (handle (Tick 50) asking)) = STATE_WAITING /\
  outstanding_timers (handle (Tick 50) asking) = 1%nat.
Proof.
  pose proof (round_timer_fires 50 2 50 first_round first_round asking) as Hx.
  cbv zeta in Hx. destruct Hx as [Heq Hn]; [by_run ..|].
  split; [rewrite Heq; reflexivity|exact Hn].
Defined.

Lemma next_skips_wait_witness :
  state (w_game (handle (Chat 51 bob "!n") on_a_streak)) = STATE_QUESTION /\
  outstanding_timers (handle (Chat 51 bob "!n") on_a_streak) = 1%nat.
Proof.
  pose proof (next_skips_wait 51 bob "!n" 25 delay_new_round_slept 60 0
                the_question on_a_streak) as Hx.
  cbv zeta in Hx. destruct Hx as [Heq Hn]; [by_run ..|].
  split; [rewrite Heq; reflexivity|]. apply Hn. vm_compute. reflexivity.
Defined.


Lemma admin_attribute_ends_chat_witness :
  w_chat_alive (handle (Chat 16 alice "!a game") asking) = false /\
  w_chat_alive (handle (Chat 17 bob "paris")
                  (handle (Chat 16 alice "!a game") asking)) = false.
Proof.
  pose proof (admin_attribute_ends_chat 16 alice "!a game" "game" "" asking)
    as Hx.
  cbv zeta in Hx. destruct Hx as (Hd & Hall & _); [by_run ..|].
  split; [exact Hd|]. exact (Hall [Chat 17 bob "paris"]).
Defined.

Lemma admin_stop_cancels_witness :
  state (w_game (handle (Chat 16 alice "!a stop lock") asking)) = STATE_LOCKED /\
  outstanding_timers (handle (Chat 16 alice "!a stop lock") asking) = 0%nat.
Proof.
  pose proof (admin_stop_cancels 16 alice "!a stop lock" "lock" 2
                round_timeout_slept 50 asking) as Hx.
  cbv zeta in Hx. destruct Hx as [Heq Hn]; [by_run ..|].
  split; [rewrite Heq; vm_compute; reflexivity|]. apply Hn. by_run.
Defined.

Lemma one_timer_one_event_at_a_time_witness :
  (outstanding_timers
     (run_events 0 (five_wins ++ [Chat 51 bob "!n"; Tick 100])) <= 1)%nat.
Proof.
  apply (one_timer_one_event_at_a_time 0 (five_wins ++ [Chat 51 bob "!n"; Tick 100])).
  repeat (constructor; [first [exact I | by_run]|]). constructor.
Defined.

Lemma starts_back_to_back_witness :
  outstanding_timers
    (run_ready
       (fuel_for (run_chat alice "!start"
                    (run_chat bob "!start" (set_now 1 lobby)).2).2)
       (run_chat alice "!start"
          (run_chat bob "!start" (set_now 1 lobby)).2).2)
  = 2%nat.
Proof.
  pose proof (starts_back_to_back 1 bob "!start" alice "!start" lobby) as Hx.
  cbv zeta in Hx.
  destruct Hx as (_ & _ & _ & Hn); [by_run ..|].
  rewrite Hn. vm_compute. reflexivity.
Defined.
